(** * cors-headers: a shallow embedding of [src/cors.ts]

    The library computes the CORS response headers for one request.  The
    embedding follows the source function by function:

    - JavaScript values that the code inspects at run time ([typeof],
      [Array.isArray], [instanceof RegExp], truthiness) are inductive types
      with one constructor per run-time shape;
    - the platform's [Headers] object is its header list, with the three
      operations the code calls ([get], [set], [append]); [cors] runs on
      the bare list operations, [cors_platform] puts the platform's
      normalisation and validation of header values in front of them;
    - [throw] is a result type;
    - the writes to objects, [corsOptions.origin = ...] and the
      [lastIndex] that [RegExp.prototype.test] sets on a global or sticky
      pattern, are modelled over an explicit object store ([cors_store]),
      to talk about what the call does to the caller's configuration
      object. *)

From Stdlib Require Import ZArith String Ascii List Bool DecimalString.
From stdpp Require Import base option list gmap.
Import ListNotations.

Set Warnings "-register-all".
Local Open Scope string_scope.

(** ** Strings *)

(** ASCII case mapping.  [req.method] is an HTTP token and header names are
    ASCII, so the byte-wise mapping is what [toUpperCase] and the header
    list's name comparison do on them. *)
Definition upper_ascii (c : ascii) : ascii :=
  let n := nat_of_ascii c in
  if (97 <=? n)%nat && (n <=? 122)%nat then ascii_of_nat (n - 32) else c.

Definition lower_ascii (c : ascii) : ascii :=
  let n := nat_of_ascii c in
  if (65 <=? n)%nat && (n <=? 90)%nat then ascii_of_nat (n + 32) else c.

Fixpoint map_string (f : ascii -> ascii) (s : string) : string :=
  match s with
  | EmptyString => EmptyString
  | String c r => String (f c) (map_string f r)
  end.

Definition toUpperCase (s : string) : string := map_string upper_ascii s.
Definition toLowerCase (s : string) : string := map_string lower_ascii s.

(** Case-insensitive comparison written out character by character; used
    only to state what "compares case-insensitively equal" means. *)
Fixpoint eq_ignore_case (a b : string) : bool :=
  match a, b with
  | EmptyString, EmptyString => true
  | String x a', String y b' =>
      Ascii.eqb (upper_ascii x) (upper_ascii y) && eq_ignore_case a' b'
  | _, _ => false
  end.

(** Truthiness of a JavaScript string: every string but the empty one. *)
Definition truthy_string (s : string) : bool := negb (s =? "").

(** [Array.prototype.join] on an array of strings. *)
Definition join (sep : string) (l : list string) : string := String.concat sep l.

(** [String(n)] for an integer [n]: its decimal numeral.  Numbers are
    modelled as integers; fractional values, [NaN] and magnitudes that
    JavaScript prints in exponent form are outside the embedding. *)
Definition String_of_number (n : Z) : string :=
  NilZero.string_of_int (Z.to_int n).


(** ** The [Headers] object

    The platform object is a header list: an ordered list of name/value
    pairs.  Names match case-insensitively.  [get] combines the values of
    all entries of that name with comma-and-space; [append] adds an entry
    at the end; [set] overwrites the first entry of that name, drops the
    others, and adds an entry when there is none.  These are the list
    operations alone: the normalisation and validation that the platform's
    [set] and [append] run before them are in [Platform] below, and agree
    with the operations here on every value that is a header value
    already. *)
Module Headers.

Definition t : Type := list (string * string).

Definition new : t := [].

Definition same_name (a b : string) : bool :=
  toLowerCase a =? toLowerCase b.

Fixpoint values (h : t) (name : string) : list string :=
  match h with
  | [] => []
  | (k, v) :: r =>
      if same_name k name then v :: values r name else values r name
  end.

Definition get (h : t) (name : string) : option string :=
  match values h name with
  | [] => None
  | vs => Some (join ", " vs)
  end.

Definition append (h : t) (name value : string) : t :=
  (h ++ [(name, value)])%list.

Fixpoint remove (h : t) (name : string) : t :=
  match h with
  | [] => []
  | (k, v) :: r =>
      if same_name k name then remove r name else (k, v) :: remove r name
  end.

Fixpoint set (h : t) (name value : string) : t :=
  match h with
  | [] => [(name, value)]
  | (k, v) :: r =>
      if same_name k name then (k, value) :: remove r name
      else (k, v) :: set r name value
  end.

End Headers.

(** ** Configuration values *)

(** A regular expression without the [g] and [y] flags, seen through
    [test].  Such a pattern's [test] neither reads nor writes [lastIndex],
    so it is a predicate on strings.  A pattern with one of those flags is
    not a value of this type: its [test] depends on and sets [lastIndex],
    which the object store below models ([Pattern], [regexp_test]). *)
Record RegExp := { test : string -> bool }.

(** The values the [origin] field can hold at run time.  The declared type
    is [boolean | string | RegExp | (string | RegExp)[]] or a callback; the
    code decides by run-time inspection, so the other shapes it tells apart
    only by truthiness are constructors too. *)
Inductive CORSOrigin :=
| OBool (b : bool)
| OStr (s : string)
| ORegExp (r : RegExp)
| OArr (items : list CORSOrigin)
| OFun (f : option string -> CORSOrigin)
| ONum (n : Z)
| ONull
| OUndefined.

(** [!!v] *)
Definition truthy (v : CORSOrigin) : bool :=
  match v with
  | OBool b => b
  | OStr s => truthy_string s
  | ORegExp _ | OArr _ | OFun _ => true
  | ONum n => negb (n =? 0)%Z
  | ONull | OUndefined => false
  end.

(** [typeof v === "function"] *)
Definition isFunction (v : CORSOrigin) : bool :=
  match v with OFun _ => true | _ => false end.

Definition isString (v : CORSOrigin) : bool :=
  match v with OStr _ => true | _ => false end.

(** [v === "*"] *)
Definition is_star (v : CORSOrigin) : bool :=
  match v with OStr s => s =? "*" | _ => false end.

(** [string | string[]], or [undefined] when the field is not set. *)
Inductive StringOrArray :=
| SStr (s : string)
| SArr (l : list string)
| SUndefined.

Record CORSOptions := {
  allowedHeaders : StringOrArray;
  allowedMethods : StringOrArray;
  credentials : bool;
  exposedHeaders : StringOrArray;
  maxAge : option Z;
  origin : CORSOrigin
}.

(** [Partial<CORSOptions>]: [None] is a property the object does not have. *)
Record PartialOptions := {
  p_allowedHeaders : option StringOrArray;
  p_allowedMethods : option StringOrArray;
  p_credentials : option bool;
  p_exposedHeaders : option StringOrArray;
  p_maxAge : option Z;
  p_origin : option CORSOrigin
}.

Definition emptyOptions : PartialOptions :=
  {| p_allowedHeaders := None; p_allowedMethods := None; p_credentials := None;
     p_exposedHeaders := None; p_maxAge := None; p_origin := None |}.

(** The second argument of [cors]: an options object or a callback that
    builds one from the request's origin. *)
Inductive Config :=
| Static (o : PartialOptions)
| Callback (f : option string -> PartialOptions).

Record Request := { method : string; headers : Headers.t }.

(** ** Exceptions *)

Inductive Exn :=
| Error (message : string)
| TypeError (message : string).

Inductive Result (A : Type) :=
| Ok (a : A)
| Throw (e : Exn).
Arguments Ok {A} a.
Arguments Throw {A} e.

(** ** [cors.ts] *)

Definition defaults : CORSOptions :=
  {| allowedHeaders := SUndefined;
     allowedMethods := SStr "GET,HEAD,PUT,PATCH,POST,DELETE";
     credentials := false;
     exposedHeaders := SUndefined;
     maxAge := None;
     origin := OStr "*" |}.

Fixpoint isOriginAllowed (origin : string) (allowedOrigin : CORSOrigin) : bool :=
  match allowedOrigin with
  | OArr items =>
      (fix loop (l : list CORSOrigin) : bool :=
         match l with
         | [] => false
         | x :: r => if isOriginAllowed origin x then true else loop r
         end) items
  | OStr s => origin =? s
  | ORegExp r => test r origin
  | other => truthy other
  end.

(** [HeaderObj]: [value] is [string | undefined | null | boolean]. *)
Inductive HeaderValue :=
| VStr (s : string)
| VBool (b : bool)
| VNull
| VUndefined.

Definition truthy_value (v : HeaderValue) : bool :=
  match v with
  | VStr s => truthy_string s
  | VBool b => b
  | VNull | VUndefined => false
  end.

(** [String(value)] *)
Definition String_of_value (v : HeaderValue) : string :=
  match v with
  | VStr s => s
  | VBool true => "true"
  | VBool false => "false"
  | VNull => "null"
  | VUndefined => "undefined"
  end.

Record HeaderObj := { key : string; value : HeaderValue }.

(** An element of [headersArr]: [undefined], a header, or an array. *)
Inductive HeaderItem :=
| HUndefined
| HObj (h : HeaderObj)
| HArr (l : list HeaderItem).

Definition item_of (o : option HeaderObj) : HeaderItem :=
  match o with Some h => HObj h | None => HUndefined end.

Definition items_of (l : list HeaderObj) : HeaderItem := HArr (map HObj l).

Definition configureOrigin (options : CORSOptions) (req : Request) : list HeaderObj :=
  let requestOrigin := Headers.get (headers req) "origin" in
  let optsOrigin := origin options in
  if negb (truthy optsOrigin) || is_star optsOrigin
  then [ {| key := "Access-Control-Allow-Origin"; value := VStr "*" |} ]
  else if isString optsOrigin then
    [ {| key := "Access-Control-Allow-Origin";
         value := match optsOrigin with OStr s => VStr s | _ => VUndefined end |};
      {| key := "Vary"; value := VStr "Origin" |} ]
  else
    let isAllowed :=
      match requestOrigin with
      | Some o => if truthy_string o then isOriginAllowed o optsOrigin else false
      | None => false
      end in
    [ {| key := "Access-Control-Allow-Origin";
         value := if isAllowed
                  then match requestOrigin with Some o => VStr o | None => VNull end
                  else VBool false |};
      {| key := "Vary"; value := VStr "Origin" |} ].

(** [if (Array.isArray(x)) x = x.join(",")] *)
Definition joinIfArray (x : StringOrArray) : option string :=
  match x with
  | SArr l => Some (join "," l)
  | SStr s => Some s
  | SUndefined => None
  end.

Definition truthy_opt (x : option string) : bool :=
  match x with Some s => truthy_string s | None => false end.

Definition value_of_opt (x : option string) : HeaderValue :=
  match x with Some s => VStr s | None => VUndefined end.

Definition configureMethods (options : CORSOptions) : option HeaderObj :=
  let methods := joinIfArray (allowedMethods options) in
  if truthy_opt methods
  then Some {| key := "Access-Control-Allow-Methods"; value := value_of_opt methods |}
  else None.

Definition configureCredentials (options : CORSOptions) : option HeaderObj :=
  if credentials options
  then Some {| key := "Access-Control-Allow-Credentials"; value := VBool true |}
  else None.

Definition configureAllowedHeaders (options : CORSOptions) (req : Request)
  : list HeaderObj :=
  let allowedHeaders0 := joinIfArray (allowedHeaders options) in
  let reflect := negb (truthy_opt allowedHeaders0) in
  let allowedHeaders1 :=
    if reflect then Headers.get (headers req) "access-control-request-headers"
    else allowedHeaders0 in
  ((if reflect && truthy_opt allowedHeaders1
    then [ {| key := "Vary"; value := VStr "Access-Control-Request-Headers" |} ]
    else [])
   ++
   (if truthy_opt allowedHeaders1
    then [ {| key := "Access-Control-Allow-Headers"; value := value_of_opt allowedHeaders1 |} ]
    else []))%list.

Definition configureExposedHeaders (options : CORSOptions) : option HeaderObj :=
  let exposeHeaders := joinIfArray (exposedHeaders options) in
  if truthy_opt exposeHeaders
  then Some {| key := "Access-Control-Expose-Headers"; value := value_of_opt exposeHeaders |}
  else None.

Definition configureMaxAge (options : CORSOptions) : option HeaderObj :=
  let maxAge' :=
    match maxAge options with
    | Some n => Some (String_of_number n)
    | None => None
    end in
  if truthy_opt maxAge'
  then Some {| key := "Access-Control-Max-Age"; value := value_of_opt maxAge' |}
  else None.

(** [applyHeaders]: one element of the array, then the loop over it. *)
Fixpoint applyHeader (header : HeaderItem) (hs : Headers.t) : Headers.t :=
  match header with
  | HUndefined => hs
  | HArr l =>
      (fix loop (l : list HeaderItem) (hs : Headers.t) : Headers.t :=
         match l with
         | [] => hs
         | x :: r => loop r (applyHeader x hs)
         end) l hs
  | HObj h =>
      if (key h =? "Vary") && truthy_value (value h)
      then Headers.append hs (key h) (String_of_value (value h))
      else if truthy_value (value h)
      then Headers.set hs (key h) (String_of_value (value h))
      else hs
  end.

Definition applyHeaders (headersArr : list HeaderItem) (hs : Headers.t) : Headers.t :=
  applyHeader (HArr headersArr) hs.

(** [{ ...base, ...o }] *)
Definition spread (base : CORSOptions) (o : PartialOptions) : CORSOptions :=
  {| allowedHeaders := default (allowedHeaders base) (p_allowedHeaders o);
     allowedMethods := default (allowedMethods base) (p_allowedMethods o);
     credentials := default (credentials base) (p_credentials o);
     exposedHeaders := default (exposedHeaders base) (p_exposedHeaders o);
     maxAge := match p_maxAge o with Some n => Some n | None => maxAge base end;
     origin := default (origin base) (p_origin o) |}.

Definition set_origin (o : CORSOptions) (v : CORSOrigin) : CORSOptions :=
  {| allowedHeaders := allowedHeaders o; allowedMethods := allowedMethods o;
     credentials := credentials o; exposedHeaders := exposedHeaders o;
     maxAge := maxAge o; origin := v |}.

(** [{ ...p, origin: v }] on an options object. *)
Definition with_origin (p : PartialOptions) (v : CORSOrigin) : PartialOptions :=
  {| p_allowedHeaders := p_allowedHeaders p; p_allowedMethods := p_allowedMethods p;
     p_credentials := p_credentials p; p_exposedHeaders := p_exposedHeaders p;
     p_maxAge := p_maxAge p; p_origin := Some v |}.

(** Lines 148-155: the working copy, defaults overlaid with the options. *)
Definition mergeOptions (reqOrigin : option string) (options : Config) : CORSOptions :=
  let corsOptions := defaults in
  match options with
  | Callback f => spread corsOptions (f reqOrigin)
  | Static o => spread corsOptions o
  end.

(** Lines 157-165: one level of origin callback. *)
Definition resolveOrigin (reqOrigin : option string) (corsOptions : CORSOptions)
  : Result CORSOptions :=
  match origin corsOptions with
  | OFun f =>
      let originCallbackResult := f reqOrigin in
      if isFunction originCallbackResult
      then Throw (Error "Origin callback result cannot be a function.")
      else Ok (set_origin corsOptions originCallbackResult)
  | _ => Ok corsOptions
  end.

(** Lines 167-186: the array of headers to apply. *)
Definition buildHeaders (corsOptions : CORSOptions) (req : Request) : list HeaderItem :=
  let method := toUpperCase (method req) in
  if truthy (origin corsOptions) then
    if method =? "OPTIONS" then
      [ items_of (configureOrigin corsOptions req);
        item_of (configureCredentials corsOptions);
        item_of (configureMethods corsOptions);
        items_of (configureAllowedHeaders corsOptions req);
        item_of (configureMaxAge corsOptions);
        item_of (configureExposedHeaders corsOptions);
        HObj {| key := "Content-Length"; value := VStr "0" |} ]
    else
      [ items_of (configureOrigin corsOptions req);
        item_of (configureCredentials corsOptions);
        item_of (configureExposedHeaders corsOptions) ]
  else [].

(** The options a call works with, once both callbacks have run. *)
Definition resolveOptions (req : Request) (options : option Config)
  : Result CORSOptions :=
  let reqOrigin := Headers.get (headers req) "origin" in
  resolveOrigin reqOrigin (mergeOptions reqOrigin (default (Static emptyOptions) options)).

(** The entry point.  [options] is [None] when the caller passes no second
    argument. *)
Definition cors (req : Request) (options : option Config) : Result Headers.t :=
  match resolveOptions req options with
  | Throw e => Throw e
  | Ok corsOptions => Ok (applyHeaders (buildHeaders corsOptions req) Headers.new)
  end.

(** ** The [Headers] methods as the platform runs them

    [Headers.prototype.set] and [append] first strip the HTTP whitespace
    (tab, line feed, carriage return, space) around the value, then refuse
    with a [TypeError] a value that still holds a NUL, a line feed or a
    carriage return, and only then change the header list.  The names
    [cors.ts] writes are constants and are valid header names.  A string is
    a sequence of bytes here; a JavaScript string with a code unit above
    255, which the platform refuses as well, has no counterpart. *)
Module Platform.

Definition is_whitespace (c : ascii) : bool :=
  let n := nat_of_ascii c in
  (n =? 9)%nat || (n =? 10)%nat || (n =? 13)%nat || (n =? 32)%nat.

Definition is_forbidden (c : ascii) : bool :=
  let n := nat_of_ascii c in
  (n =? 0)%nat || (n =? 10)%nat || (n =? 13)%nat.

Fixpoint strip_leading (s : string) : string :=
  match s with
  | EmptyString => EmptyString
  | String c r => if is_whitespace c then strip_leading r else s
  end.

Fixpoint strip_trailing (s : string) : string :=
  match s with
  | EmptyString => EmptyString
  | String c r =>
      match strip_trailing r with
      | EmptyString => if is_whitespace c then EmptyString else String c EmptyString
      | r' => String c r'
      end
  end.

Definition normalize (s : string) : string := strip_trailing (strip_leading s).

(** No NUL, line feed or carriage return. *)
Fixpoint valid (s : string) : bool :=
  match s with
  | EmptyString => true
  | String c r => negb (is_forbidden c) && valid r
  end.

(** A header value: what the platform stores as it is given. *)
Definition is_value (s : string) : bool := (normalize s =? s) && valid s.

(** A value the platform takes, whitespace and all: once stripped it holds
    no NUL, line feed or carriage return. *)
Definition accepted (s : string) : bool := valid (normalize s).

Definition invalid_value : Exn := TypeError "Invalid header value".

Definition set (h : Headers.t) (name value : string) : Result Headers.t :=
  let value := normalize value in
  if valid value then Ok (Headers.set h name value) else Throw invalid_value.

Definition append (h : Headers.t) (name value : string) : Result Headers.t :=
  let value := normalize value in
  if valid value then Ok (Headers.append h name value) else Throw invalid_value.

End Platform.

(** [applyHeaders] on the platform's methods: the exception of a refused
    value ends the loop. *)
Fixpoint applyHeader_platform (header : HeaderItem) (hs : Headers.t)
  : Result Headers.t :=
  match header with
  | HUndefined => Ok hs
  | HArr l =>
      (fix loop (l : list HeaderItem) (hs : Headers.t) : Result Headers.t :=
         match l with
         | [] => Ok hs
         | x :: r =>
             match applyHeader_platform x hs with
             | Ok hs' => loop r hs'
             | Throw e => Throw e
             end
         end) l hs
  | HObj h =>
      if (key h =? "Vary") && truthy_value (value h)
      then Platform.append hs (key h) (String_of_value (value h))
      else if truthy_value (value h)
      then Platform.set hs (key h) (String_of_value (value h))
      else Ok hs
  end.

Definition applyHeaders_platform (headersArr : list HeaderItem) (hs : Headers.t)
  : Result Headers.t :=
  applyHeader_platform (HArr headersArr) hs.

(** The entry point on the platform's [Headers]. *)
Definition cors_platform (req : Request) (options : option Config)
  : Result Headers.t :=
  match resolveOptions req options with
  | Throw e => Throw e
  | Ok corsOptions => applyHeaders_platform (buildHeaders corsOptions req) Headers.new
  end.

(** The strings of the input that a call can hand to [Headers]: the
    [origin] when it is a string, the three list options once joined, and
    the two request headers that can be reflected. *)
Definition configured_strings (co : CORSOptions) (req : Request) : list string :=
  (match origin co with OStr s => [s] | _ => [] end
   ++ option_list (Headers.get (headers req) "origin")
   ++ option_list (joinIfArray (allowedMethods co))
   ++ option_list (joinIfArray (allowedHeaders co))
   ++ option_list (Headers.get (headers req) "access-control-request-headers")
   ++ option_list (joinIfArray (exposedHeaders co)))%list.

(** All of them are header values: no whitespace around them, no NUL, line
    feed or carriage return inside. *)
Definition header_values (co : CORSOptions) (req : Request) : bool :=
  forallb Platform.is_value (configured_strings co req).

(** None of them is refused by the platform. *)
Definition accepted_values (co : CORSOptions) (req : Request) : bool :=
  forallb Platform.accepted (configured_strings co req).

(** A header list with every value stripped of the whitespace around it. *)
Definition trimmed (h : Headers.t) : Headers.t :=
  List.map (fun e => (e.1, Platform.normalize e.2)) h.

(** ** What the spec calls the origin-matching judgement

    Written from the spec's words, to be compared with [isOriginAllowed]:
    [true] allows any origin, a fixed string allows the origin equal to it,
    a pattern allows the origins it matches, a list allows what one of its
    items allows. *)
Inductive Allows (o : string) : CORSOrigin -> Prop :=
| allows_true : Allows o (OBool true)
| allows_fixed : Allows o (OStr o)
| allows_pattern (r : RegExp) : test r o = true -> Allows o (ORegExp r)
| allows_list (items : list CORSOrigin) (x : CORSOrigin) :
    In x items -> Allows o x -> Allows o (OArr items).

(** The rules that judgement speaks about: [true], strings, patterns, and
    lists of such. *)
Fixpoint is_rule (v : CORSOrigin) : bool :=
  match v with
  | OBool b => b
  | OStr _ | ORegExp _ => true
  | OArr items =>
      (fix all (l : list CORSOrigin) : bool :=
         match l with
         | [] => true
         | x :: r => is_rule x && all r
         end) items
  | _ => false
  end.

(** A list item that is neither an array, a string nor a pattern. *)
Definition is_other (v : CORSOrigin) : bool :=
  match v with
  | OArr _ | OStr _ | ORegExp _ => false
  | _ => true
  end.

(** ** The object store

    Objects the caller can hold a reference to: options objects and
    regular expressions.  An options object is its own properties and
    whether [Object.freeze] was applied to it.  A regular expression is its
    pattern, its flags and its [lastIndex].  The arrays inside an options
    object are only ever read ([Array.isArray], indexing, [join]), so they
    stay values. *)
Definition loc : Type := positive.

(** A pattern: the matcher of the language definition, which tries the
    pattern at one index of the input and gives the end of the match found
    there, and the two flags that make [test] use [lastIndex]. *)
Record Pattern := {
  matchAt : string -> nat -> option nat;
  global : bool;
  sticky : bool
}.

Definition flagged (p : Pattern) : bool := global p || sticky p.

(** The loop of [RegExpBuiltinExec]: from index [i] on, the first index at
    which the pattern matches; a sticky pattern tries index [i] only.
    [fuel] bounds the indices left to try. *)
Fixpoint scan (p : Pattern) (s : string) (fuel i : nat) : option nat :=
  if (String.length s <? i)%nat then None
  else match matchAt p s i with
       | Some e => Some e
       | None =>
           if sticky p then None
           else match fuel with
                | O => None
                | S fuel' => scan p s fuel' (S i)
                end
       end.

(** [RegExp.prototype.test] on a pattern and its [lastIndex]: the answer
    and the new [lastIndex].  Without [g] and [y] the search starts at 0
    and [lastIndex] stays; with one of them it starts at [lastIndex], which
    becomes the end of the match, or 0 when there is none. *)
Definition regexp_test (p : Pattern) (lastIndex : nat) (s : string) : bool * nat :=
  let start := if flagged p then lastIndex else 0%nat in
  match scan p s (String.length s) start with
  | Some e => (true, if flagged p then e else lastIndex)
  | None => (false, if flagged p then 0%nat else lastIndex)
  end.

(** The values of the [origin] field as the store holds them: as
    [CORSOrigin], with a reference in the place of a regular expression. *)
Inductive OriginRef :=
| RBool (b : bool)
| RStr (s : string)
| RObject (l : loc)
| RArr (items : list OriginRef)
| RFun (f : option string -> OriginRef)
| RNum (n : Z)
| RNull
| RUndefined.

Definition truthyRef (v : OriginRef) : bool :=
  match v with
  | RBool b => b
  | RStr s => truthy_string s
  | RObject _ | RArr _ | RFun _ => true
  | RNum n => negb (n =? 0)%Z
  | RNull | RUndefined => false
  end.

Definition isFunctionRef (v : OriginRef) : bool :=
  match v with RFun _ => true | _ => false end.

Definition isStringRef (v : OriginRef) : bool :=
  match v with RStr _ => true | _ => false end.

Definition is_starRef (v : OriginRef) : bool :=
  match v with RStr s => s =? "*" | _ => false end.

(** The own properties of an options object in the store. *)
Record StoredOptions := {
  s_allowedHeaders : option StringOrArray;
  s_allowedMethods : option StringOrArray;
  s_credentials : option bool;
  s_exposedHeaders : option StringOrArray;
  s_maxAge : option Z;
  s_origin : option OriginRef
}.

Definition emptyStored : StoredOptions :=
  {| s_allowedHeaders := None; s_allowedMethods := None; s_credentials := None;
     s_exposedHeaders := None; s_maxAge := None; s_origin := None |}.

Inductive Object :=
| OptionsObject (frozen : bool) (props : StoredOptions)
| RegExpObject (frozen : bool) (p : Pattern) (lastIndex : nat).

Abbreviation store := (gmap loc Object).

(** The second argument of [cors] as the caller passes it: a reference to
    an options object, or a callback that returns such a reference. *)
Inductive ConfigRef :=
| RefObj (l : loc)
| RefFun (f : option string -> loc).

(** State and exceptions. *)
Definition M (A : Type) : Type := store -> Result A * store.

Definition ret {A} (a : A) : M A := fun s => (Ok a, s).

Definition throw {A} (e : Exn) : M A := fun s => (Throw e, s).

Definition bind {A B} (m : M A) (k : A -> M B) : M B :=
  fun s =>
    match m s with
    | (Ok a, s') => k a s'
    | (Throw e, s') => (Throw e, s')
    end.

Definition lift {A} (r : Result A) : M A := fun s => (r, s).

Declare Scope store_scope.
Delimit Scope store_scope with M.
Notation "x <- m ;; k" := (bind m (fun x => k))
  (at level 100, m at next level, right associativity) : store_scope.
Notation "m ;;; k" := (bind m (fun _ => k))
  (at level 100, right associativity) : store_scope.

(** A new, unfrozen options object. *)
Definition alloc (p : StoredOptions) : M loc :=
  fun s =>
    let l := fresh (dom s) in
    (Ok l, <[l := OptionsObject false p]> s).

(** The own enumerable properties of an object, as a spread reads them:
    those of an options object; a regular expression has none, and a
    reference to nothing ([undefined], [null]) spreads no property. *)
Definition ownProps (l : loc) : M StoredOptions :=
  fun s =>
    match s !! l with
    | Some (OptionsObject _ p) => (Ok p, s)
    | _ => (Ok emptyStored, s)
    end.

Definition with_originRef (p : StoredOptions) (v : OriginRef) : StoredOptions :=
  {| s_allowedHeaders := s_allowedHeaders p; s_allowedMethods := s_allowedMethods p;
     s_credentials := s_credentials p; s_exposedHeaders := s_exposedHeaders p;
     s_maxAge := s_maxAge p; s_origin := Some v |}.

Definition read_only_origin : Exn :=
  TypeError "Cannot assign to read only property 'origin' of object".

Definition read_only_lastIndex : Exn :=
  TypeError "Cannot assign to read only property 'lastIndex' of object".

(** [obj.origin = v] in strict mode: a frozen object refuses the write. *)
Definition assignOrigin (l : loc) (v : OriginRef) : M unit :=
  fun s =>
    match s !! l with
    | Some (OptionsObject fr p) =>
        if fr then (Throw read_only_origin, s)
        else (Ok tt, <[l := OptionsObject false (with_originRef p v)]> s)
    | _ => (Throw (TypeError "Cannot set properties of undefined"), s)
    end.

(** [allowedOrigin.test(origin)] on the object at [l].  A pattern with the
    [g] or [y] flag has its [lastIndex] set, which a frozen regular
    expression refuses.  Reached for a regular expression only; any other
    object takes the last branch of [isOriginAllowed], and is truthy. *)
Definition test_store (l : loc) (origin : string) : M bool :=
  fun s =>
    match s !! l with
    | Some (RegExpObject fr p lastIndex) =>
        let (b, lastIndex') := regexp_test p lastIndex origin in
        if flagged p then
          if fr then (Throw read_only_lastIndex, s)
          else (Ok b, <[l := RegExpObject fr p lastIndex']> s)
        else (Ok b, s)
    | _ => (Ok true, s)
    end.

Fixpoint isOriginAllowed_store (origin : string) (allowedOrigin : OriginRef) : M bool :=
  match allowedOrigin with
  | RArr items =>
      (fix loop (l : list OriginRef) : M bool :=
         match l with
         | [] => ret false
         | x :: r =>
             bind (isOriginAllowed_store origin x)
                  (fun b => if b then ret true else loop r)
         end) items
  | RStr s => ret (origin =? s)
  | RObject l => test_store l origin
  | other => ret (truthyRef other)
  end.

Definition configureOrigin_store (optsOrigin : OriginRef) (req : Request)
  : M (list HeaderObj) :=
  let requestOrigin := Headers.get (headers req) "origin" in
  if negb (truthyRef optsOrigin) || is_starRef optsOrigin
  then ret [ {| key := "Access-Control-Allow-Origin"; value := VStr "*" |} ]
  else if isStringRef optsOrigin then
    ret [ {| key := "Access-Control-Allow-Origin";
             value := match optsOrigin with RStr s => VStr s | _ => VUndefined end |};
          {| key := "Vary"; value := VStr "Origin" |} ]
  else
    bind (match requestOrigin with
          | Some o => if truthy_string o then isOriginAllowed_store o optsOrigin
                      else ret false
          | None => ret false
          end)
         (fun isAllowed =>
            ret [ {| key := "Access-Control-Allow-Origin";
                     value := if isAllowed
                              then match requestOrigin with
                                   | Some o => VStr o
                                   | None => VNull
                                   end
                              else VBool false |};
                  {| key := "Vary"; value := VStr "Origin" |} ]).

(** [{ ...a, ...b }] on own properties. *)
Definition spreadStored (a b : StoredOptions) : StoredOptions :=
  {| s_allowedHeaders := match s_allowedHeaders b with Some v => Some v | None => s_allowedHeaders a end;
     s_allowedMethods := match s_allowedMethods b with Some v => Some v | None => s_allowedMethods a end;
     s_credentials := match s_credentials b with Some v => Some v | None => s_credentials a end;
     s_exposedHeaders := match s_exposedHeaders b with Some v => Some v | None => s_exposedHeaders a end;
     s_maxAge := match s_maxAge b with Some v => Some v | None => s_maxAge a end;
     s_origin := match s_origin b with Some v => Some v | None => s_origin a end |}.

(** The module-level [defaults] object, by its own properties. *)
Definition defaultsStored : StoredOptions :=
  {| s_allowedHeaders := None;
     s_allowedMethods := Some (SStr "GET,HEAD,PUT,PATCH,POST,DELETE");
     s_credentials := Some false;
     s_exposedHeaders := None;
     s_maxAge := None;
     s_origin := Some (RStr "*") |}.

(** Reading [corsOptions.origin]: a missing property reads [undefined]. *)
Definition originOf (p : StoredOptions) : OriginRef :=
  default RUndefined (s_origin p).

(** The fields the producers other than [configureOrigin] read.  The
    [origin] is not among them; it is read from the store, by
    [configureOrigin_store]. *)
Definition otherFields (p : StoredOptions) : CORSOptions :=
  {| allowedHeaders := default SUndefined (s_allowedHeaders p);
     allowedMethods := default SUndefined (s_allowedMethods p);
     credentials := default false (s_credentials p);
     exposedHeaders := default SUndefined (s_exposedHeaders p);
     maxAge := s_maxAge p;
     origin := OUndefined |}.

(** The two branches of lines 168-185, given what [configureOrigin]
    returned. *)
Definition headersArr_store (originHeaders : list HeaderObj) (co : CORSOptions)
    (req : Request) : list HeaderItem :=
  if toUpperCase (method req) =? "OPTIONS" then
    [ items_of originHeaders;
      item_of (configureCredentials co);
      item_of (configureMethods co);
      items_of (configureAllowedHeaders co req);
      item_of (configureMaxAge co);
      item_of (configureExposedHeaders co);
      HObj {| key := "Content-Length"; value := VStr "0" |} ]
  else
    [ items_of originHeaders;
      item_of (configureCredentials co);
      item_of (configureExposedHeaders co) ].

(** [cors] over the store, from line 145 on: every object literal
    allocates, the spreads read own properties, line 164 writes the working
    copy, [test] writes the [lastIndex] of the patterns it runs, and the
    headers go through the platform's methods. *)
Definition cors_store_with (req : Request) (options : ConfigRef) : M Headers.t :=
  (let reqOrigin := Headers.get (headers req) "origin" in
   corsOptions <- alloc defaultsStored ;;
   base <- ownProps corsOptions ;;
   over <- match options with
           | RefFun f => ownProps (f reqOrigin)
           | RefObj l => ownProps l
           end ;;
   corsOptions <- alloc (spreadStored base over) ;;
   merged <- ownProps corsOptions ;;
   match originOf merged with
   | RFun f =>
       let originCallbackResult := f reqOrigin in
       if isFunctionRef originCallbackResult
       then throw (Error "Origin callback result cannot be a function.")
       else assignOrigin corsOptions originCallbackResult
   | _ => ret tt
   end ;;;
   final <- ownProps corsOptions ;;
   headersArr <- (if truthyRef (originOf final) then
                    originHeaders <- configureOrigin_store (originOf final) req ;;
                    ret (headersArr_store originHeaders (otherFields final) req)
                  else ret []) ;;
   lift (applyHeaders_platform headersArr Headers.new))%M.

(** The entry point; the default parameter [options = {}] allocates the
    empty object when the caller passes nothing. *)
Definition cors_store (req : Request) (options : option ConfigRef) : M Headers.t :=
  match options with
  | Some r => cors_store_with req r
  | None => (l <- alloc emptyStored ;; cors_store_with req (RefObj l))%M
  end.

(** What a call may do to the objects of a store [s0], seen in a later
    store [s]: an options object is as it was; a regular expression is as
    it was but for its [lastIndex], and that too when it has neither the
    [g] nor the [y] flag or is frozen. *)
Definition kept (s0 s : store) : Prop :=
  (forall l fr p, s0 !! l = Some (OptionsObject fr p) ->
                  s !! l = Some (OptionsObject fr p))
  /\ (forall l fr p li, s0 !! l = Some (RegExpObject fr p li) ->
        exists li', s !! l = Some (RegExpObject fr p li')
                    /\ (flagged p = false \/ fr = true -> li' = li)).

(** An outcome that keeps the objects of [s0] and is not the refusal of
    the write to a frozen options object. *)
Definition respects {A} (s0 : store) (x : Result A * store) : Prop :=
  kept s0 x.2 /\ forall e, x.1 = Throw e -> e <> read_only_origin.

(** ** From the store to values

    On a store none of whose regular expressions has the [g] or the [y]
    flag, no [test] reads or writes a [lastIndex], and an origin rule of
    the store can be read as a value of [CORSOrigin]. *)
Definition unflagged (s : store) : Prop :=
  forall l fr p li, s !! l = Some (RegExpObject fr p li) -> flagged p = false.

(** The pattern of the regular expression at [l], if there is one. *)
Definition regexpAt (s : store) (l : loc) : option Pattern :=
  match s !! l with
  | Some (RegExpObject _ p _) => Some p
  | _ => None
  end.

(** A pattern without flags as a value: its [test], searching from 0. *)
Definition RegExp_of (p : Pattern) : RegExp :=
  {| test := fun s => (regexp_test p 0 s).1 |}.

(** An origin rule of the store as a value.  An object that is not a
    regular expression is told apart by nothing but its truthiness, in
    [cors] and in [isOriginAllowed] alike; so is [true]. *)
Fixpoint originValue (s : store) (v : OriginRef) : CORSOrigin :=
  match v with
  | RBool b => OBool b
  | RStr x => OStr x
  | RObject l =>
      match regexpAt s l with
      | Some p => ORegExp (RegExp_of p)
      | None => OBool true
      end
  | RArr items => OArr (List.map (originValue s) items)
  | RFun f => OFun (fun o => originValue s (f o))
  | RNum n => ONum n
  | RNull => ONull
  | RUndefined => OUndefined
  end.

Definition optionsValue (s : store) (p : StoredOptions) : PartialOptions :=
  {| p_allowedHeaders := s_allowedHeaders p;
     p_allowedMethods := s_allowedMethods p;
     p_credentials := s_credentials p;
     p_exposedHeaders := s_exposedHeaders p;
     p_maxAge := s_maxAge p;
     p_origin := originValue s <$> s_origin p |}.

(** The own properties of the options object at [l]; see [ownProps]. *)
Definition propsAt (s : store) (l : loc) : StoredOptions :=
  match s !! l with
  | Some (OptionsObject _ p) => p
  | _ => emptyStored
  end.

Definition configValue (s : store) (c : ConfigRef) : Config :=
  match c with
  | RefObj l => Static (optionsValue s (propsAt s l))
  | RefFun f => Callback (fun o => optionsValue s (propsAt s (f o)))
  end.

(** The working copy as [CORSOptions]. *)
Definition workingValue (s : store) (p : StoredOptions) : CORSOptions :=
  set_origin (otherFields p) (originValue s (originOf p)).

(** ** Reading aids for the header array and the options *)

(** The header objects of an element of [headersArr], left to right, with
    the nesting of arrays and the [undefined] elements taken away. *)
Fixpoint flatten (item : HeaderItem) : list HeaderObj :=
  match item with
  | HUndefined => []
  | HObj h => [h]
  | HArr l =>
      (fix go (l : list HeaderItem) : list HeaderObj :=
         match l with
         | [] => []
         | x :: r => (flatten x ++ go r)%list
         end) l
  end.

(** The eight header names [cors.ts] writes. *)
Definition cors_header_names : list string :=
  [ "Access-Control-Allow-Origin"; "Vary"; "Access-Control-Allow-Credentials";
    "Access-Control-Allow-Methods"; "Access-Control-Allow-Headers";
    "Access-Control-Max-Age"; "Access-Control-Expose-Headers"; "Content-Length" ].

(** An array-valued option written as the string it joins to. *)
Definition prejoined (x : StringOrArray) : StringOrArray :=
  match x with
  | SArr l => SStr (join "," l)
  | other => other
  end.

Definition prejoinedOptions (o : PartialOptions) : PartialOptions :=
  {| p_allowedHeaders := prejoined <$> p_allowedHeaders o;
     p_allowedMethods := prejoined <$> p_allowedMethods o;
     p_credentials := p_credentials o;
     p_exposedHeaders := prejoined <$> p_exposedHeaders o;
     p_maxAge := p_maxAge o;
     p_origin := p_origin o |}.

(** * Properties *)

(** ** Strings *)

Lemma truthy_string_true (s : string) : truthy_string s = true <-> s <> "".
Proof.
  unfold truthy_string. rewrite negb_true_iff. apply String.eqb_neq.
Qed.

Lemma toUpperCase_eq_ignore_case (a b : string) :
  eq_ignore_case a b = true <-> toUpperCase a = toUpperCase b.
Proof.
  unfold toUpperCase. revert b.
  induction a as [|x a IH]; intros [|y b]; simpl;
    try (split; (reflexivity || discriminate)).
  rewrite andb_true_iff, IH. split.
  - intros [Hc ->]. apply Ascii.eqb_eq in Hc. now rewrite Hc.
  - intros H. injection H as Hc Hr. split; [now apply Ascii.eqb_eq | exact Hr].
Qed.

(** [toUpperCase m === "OPTIONS"] is the case-insensitive comparison of the
    method with "OPTIONS". *)
Lemma method_is_OPTIONS (m : string) :
  (toUpperCase m =? "OPTIONS") = eq_ignore_case m "OPTIONS".
Proof.
  apply eq_true_iff_eq. rewrite String.eqb_eq, toUpperCase_eq_ignore_case.
  reflexivity.
Qed.


(** ** The header list *)

Lemma same_name_trans_l (a b c : string) :
  Headers.same_name a b = true -> Headers.same_name a c = Headers.same_name b c.
Proof.
  unfold Headers.same_name. intros H%String.eqb_eq. now rewrite H.
Qed.

Lemma same_name_sym (a b : string) : Headers.same_name a b = Headers.same_name b a.
Proof. apply String.eqb_sym. Qed.

Lemma values_append (h : Headers.t) (k v n : string) :
  Headers.values (Headers.append h k v) n =
  (Headers.values h n ++ if Headers.same_name k n then [v] else [])%list.
Proof.
  unfold Headers.append. induction h as [|[k' v'] h IH]; simpl.
  - destruct (Headers.same_name k n); reflexivity.
  - rewrite IH. destruct (Headers.same_name k' n); reflexivity.
Qed.

Lemma values_remove (h : Headers.t) (k n : string) :
  Headers.values (Headers.remove h k) n =
  if Headers.same_name k n then [] else Headers.values h n.
Proof.
  induction h as [|[k' v'] h IH]; simpl.
  - destruct (Headers.same_name k n); reflexivity.
  - destruct (Headers.same_name k' k) eqn:E; simpl.
    + rewrite IH, (same_name_trans_l _ _ _ E).
      destruct (Headers.same_name k n); reflexivity.
    + rewrite IH. destruct (Headers.same_name k n) eqn:E'; [|reflexivity].
      rewrite same_name_sym in E.
      rewrite (same_name_sym k' n), <- (same_name_trans_l _ _ k' E'), E.
      reflexivity.
Qed.

Lemma values_set (h : Headers.t) (k v n : string) :
  Headers.values (Headers.set h k v) n =
  if Headers.same_name k n then [v] else Headers.values h n.
Proof.
  induction h as [|[k' v'] h IH]; simpl.
  - destruct (Headers.same_name k n); reflexivity.
  - destruct (Headers.same_name k' k) eqn:E; simpl.
    + rewrite values_remove, (same_name_trans_l _ _ _ E).
      destruct (Headers.same_name k n); reflexivity.
    + rewrite IH. destruct (Headers.same_name k n) eqn:E'; [|reflexivity].
      rewrite same_name_sym in E.
      rewrite (same_name_sym k' n), <- (same_name_trans_l _ _ k' E'), E.
      reflexivity.
Qed.


Lemma get_set_other (h : Headers.t) (k v n : string) :
  Headers.same_name k n = false ->
  Headers.get (Headers.set h k v) n = Headers.get h n.
Proof.
  intros H. unfold Headers.get. now rewrite values_set, H.
Qed.

Lemma get_append_other (h : Headers.t) (k v n : string) :
  Headers.same_name k n = false ->
  Headers.get (Headers.append h k v) n = Headers.get h n.
Proof.
  intros H. unfold Headers.get. now rewrite values_append, H, app_nil_r.
Qed.





(** ** Applying header directives *)

Lemma applyHeaders_nil (hs : Headers.t) : applyHeaders [] hs = hs.
Proof. reflexivity. Qed.

Lemma applyHeaders_cons (x : HeaderItem) (r : list HeaderItem) (hs : Headers.t) :
  applyHeaders (x :: r) hs = applyHeaders r (applyHeader x hs).
Proof. reflexivity. Qed.

Lemma applyHeader_items_nil (hs : Headers.t) : applyHeader (items_of []) hs = hs.
Proof. reflexivity. Qed.

Lemma applyHeader_items_cons (h : HeaderObj) (l : list HeaderObj) (hs : Headers.t) :
  applyHeader (items_of (h :: l)) hs = applyHeader (items_of l) (applyHeader (HObj h) hs).
Proof. reflexivity. Qed.

(** What one directive does to the values of a name [n]. *)
Lemma values_applyObj (h : HeaderObj) (hs : Headers.t) (n : string) :
  Headers.values (applyHeader (HObj h) hs) n =
  if truthy_value (value h) then
    if key h =? "Vary"
    then (Headers.values hs n ++
          if Headers.same_name (key h) n then [String_of_value (value h)] else [])%list
    else if Headers.same_name (key h) n then [String_of_value (value h)]
         else Headers.values hs n
  else Headers.values hs n.
Proof.
  simpl. destruct (truthy_value (value h)), (key h =? "Vary"); simpl;
    rewrite ?values_append, ?values_set; reflexivity.
Qed.

(** A directive of another name leaves the values of [n] alone. *)
Lemma values_applyObj_other (h : HeaderObj) (hs : Headers.t) (n : string) :
  Headers.same_name (key h) n = false ->
  Headers.values (applyHeader (HObj h) hs) n = Headers.values hs n.
Proof.
  intros H. rewrite values_applyObj, H.
  destruct (truthy_value (value h)), (key h =? "Vary");
    rewrite ?app_nil_r; reflexivity.
Qed.

Lemma values_items_other (l : list HeaderObj) (hs : Headers.t) (n : string) :
  Forall (fun h => Headers.same_name (key h) n = false) l ->
  Headers.values (applyHeader (items_of l) hs) n = Headers.values hs n.
Proof.
  intros H. revert hs. induction H as [|h l Hh _ IH]; intros hs.
  - reflexivity.
  - rewrite applyHeader_items_cons, IH. now apply values_applyObj_other.
Qed.

Lemma values_item_other (o : option HeaderObj) (hs : Headers.t) (n : string) :
  (forall h, o = Some h -> Headers.same_name (key h) n = false) ->
  Headers.values (applyHeader (item_of o) hs) n = Headers.values hs n.
Proof.
  destruct o as [h|]; intros H; [|reflexivity].
  apply values_applyObj_other, H. reflexivity.
Qed.

(** ** The name each producer writes *)

Lemma configureCredentials_key (co : CORSOptions) (h : HeaderObj) :
  configureCredentials co = Some h -> key h = "Access-Control-Allow-Credentials".
Proof.
  unfold configureCredentials. destruct (credentials co); [|discriminate].
  now intros [= <-].
Qed.

Lemma configureMethods_key (co : CORSOptions) (h : HeaderObj) :
  configureMethods co = Some h -> key h = "Access-Control-Allow-Methods".
Proof.
  unfold configureMethods.
  destruct (truthy_opt (joinIfArray (allowedMethods co))); [|discriminate].
  now intros [= <-].
Qed.

Lemma configureExposedHeaders_key (co : CORSOptions) (h : HeaderObj) :
  configureExposedHeaders co = Some h -> key h = "Access-Control-Expose-Headers".
Proof.
  unfold configureExposedHeaders.
  destruct (truthy_opt (joinIfArray (exposedHeaders co))); [|discriminate].
  now intros [= <-].
Qed.

Lemma configureMaxAge_key (co : CORSOptions) (h : HeaderObj) :
  configureMaxAge co = Some h -> key h = "Access-Control-Max-Age".
Proof.
  unfold configureMaxAge. destruct (truthy_opt _); [|discriminate].
  now intros [= <-].
Qed.

Lemma configureOrigin_keys (co : CORSOptions) (req : Request) :
  Forall (fun h => key h = "Access-Control-Allow-Origin" \/ key h = "Vary")
         (configureOrigin co req).
Proof.
  unfold configureOrigin.
  repeat match goal with |- context [if ?c then _ else _] => destruct c end;
    repeat first [ apply List.Forall_nil
                 | apply List.Forall_cons;
                   [ (left; reflexivity) || (right; reflexivity) | ] ].
Qed.

Lemma configureAllowedHeaders_keys (co : CORSOptions) (req : Request) :
  Forall (fun h => key h = "Access-Control-Allow-Headers" \/ key h = "Vary")
         (configureAllowedHeaders co req).
Proof.
  unfold configureAllowedHeaders. cbv zeta.
  destruct (negb (truthy_opt (joinIfArray (allowedHeaders co)))); simpl;
    destruct (truthy_opt _); simpl;
    repeat first [ apply List.Forall_nil
                 | apply List.Forall_cons;
                   [ (left; reflexivity) || (right; reflexivity) | ] ].
Qed.

(** Discharges "this producer writes another name" side conditions for a
    concrete name. *)
Ltac other_name :=
  solve [ reflexivity
        | let h := fresh "h" in let H := fresh "H" in
          intros h H;
          first [ apply configureCredentials_key in H
                | apply configureMethods_key in H
                | apply configureExposedHeaders_key in H
                | apply configureMaxAge_key in H ];
          rewrite H; reflexivity
        | eapply Forall_impl;
          [ first [ apply configureOrigin_keys | apply configureAllowedHeaders_keys ]
          | let h := fresh "h" in let H := fresh "H" in
            intros h [H|H]; rewrite H; reflexivity ] ].

(** Steps over the producers that do not write the name in the goal. *)
Ltac skip_others :=
  repeat first
    [ rewrite values_item_other by other_name
    | rewrite values_items_other by other_name
    | rewrite values_applyObj_other by reflexivity ].

(** ** Resolving the options *)

Lemma resolveOptions_not_function (req : Request) (options : option Config)
    (co : CORSOptions) :
  resolveOptions req options = Ok co -> isFunction (origin co) = false.
Proof.
  unfold resolveOptions, resolveOrigin.
  destruct (origin (mergeOptions _ _)) eqn:E;
    try (intros [= <-]; rewrite E; reflexivity).
  destruct (isFunction (f _)) eqn:F; [discriminate|].
  now intros [= <-].
Qed.

Lemma cors_resolved (req : Request) (options : option Config) (co : CORSOptions) :
  resolveOptions req options = Ok co ->
  cors req options = Ok (applyHeaders (buildHeaders co req) Headers.new).
Proof. unfold cors. now intros ->. Qed.

(** ** Default configuration *)

Example default_GET :
  cors {| method := "GET"; headers := [("Origin", "https://example.com")] |} None
  = Ok [("Access-Control-Allow-Origin", "*")].
Proof. reflexivity. Qed.

Example default_OPTIONS :
  cors {| method := "OPTIONS";
          headers := [("Origin", "https://example.com");
                      ("Access-Control-Request-Headers", "X-Header-1,X-Header-2")] |}
       None
  = Ok [("Access-Control-Allow-Origin", "*");
        ("Access-Control-Allow-Methods", "GET,HEAD,PUT,PATCH,POST,DELETE");
        ("Vary", "Access-Control-Request-Headers");
        ("Access-Control-Allow-Headers", "X-Header-1,X-Header-2");
        ("Content-Length", "0")].
Proof. reflexivity. Qed.

(** C1, as stated, fails: a preflight request without [Origin] that carries
    [Access-Control-Request-Headers] gets a [Vary] header out of the default
    configuration. *)
Lemma default_config_vary_counterexample :
  ~ (forall req : Request,
        Headers.get (headers req) "origin" = None ->
        exists h, cors req None = Ok h
                  /\ Headers.get h "Access-Control-Allow-Origin" = Some "*"
                  /\ Headers.get h "Vary" = None).
Proof.
  intros H.
  destruct (H {| method := "OPTIONS";
                 headers := [("Access-Control-Request-Headers", "X-Header-1")] |}
              eq_refl) as (h & Hc & _ & Hv).
  injection Hc as <-. discriminate Hv.
Qed.

(** C1 (amended): with the default configuration and no [Origin] header,
    the result has [Access-Control-Allow-Origin: *] and no [Vary] value
    [Origin]; [Vary] is absent altogether unless the request is an OPTIONS
    request with a non-empty [Access-Control-Request-Headers] header, in
    which case it is exactly [Access-Control-Request-Headers]. *)
Theorem default_config_no_origin (req : Request) :
  Headers.get (headers req) "origin" = None ->
  exists h, cors req None = Ok h
            /\ Headers.get h "Access-Control-Allow-Origin" = Some "*"
            /\ ~ In "Origin" (Headers.values h "Vary")
            /\ Headers.get h "Vary" =
               if eq_ignore_case (method req) "OPTIONS"
                  && truthy_opt (Headers.get (headers req) "access-control-request-headers")
               then Some "Access-Control-Request-Headers"
               else None.
Proof.
  intros _. exists (applyHeaders (buildHeaders defaults req) Headers.new).
  split; [reflexivity|].
  unfold buildHeaders. change (truthy (origin defaults)) with true. cbv iota.
  rewrite method_is_OPTIONS.
  destruct (eq_ignore_case (method req) "OPTIONS").
  - unfold configureAllowedHeaders.
    destruct (Headers.get (headers req) "access-control-request-headers")
      as [[|c a]|]; vm_compute; repeat split; try reflexivity; intuition discriminate.
  - vm_compute; repeat split; try reflexivity; intuition discriminate.
Qed.

Lemma default_config_no_origin_witness :
  exists h, cors {| method := "OPTIONS";
                    headers := [("Access-Control-Request-Headers", "X-Header-1")] |} None
            = Ok h
            /\ Headers.get h "Access-Control-Allow-Origin" = Some "*"
            /\ ~ In "Origin" (Headers.values h "Vary")
            /\ Headers.get h "Vary" = Some "Access-Control-Request-Headers".
Proof.
  exact (default_config_no_origin
           {| method := "OPTIONS";
              headers := [("Access-Control-Request-Headers", "X-Header-1")] |}
           eq_refl).
Defined.

(** ** Disabled CORS *)

(** How the origin rule of a call is resolved: a value given directly stays,
    a callback is replaced by what it returns for the request's origin. *)
Lemma resolveOptions_static (req : Request) (o : PartialOptions) (v : CORSOrigin) :
  p_origin o = Some v -> isFunction v = false ->
  resolveOptions req (Some (Static o)) = Ok (spread defaults o).
Proof.
  intros Ho Hv. unfold resolveOptions, resolveOrigin, mergeOptions. simpl.
  rewrite Ho. simpl. destruct v; try reflexivity. discriminate.
Qed.

Lemma resolveOptions_dynamic (req : Request) (o : PartialOptions)
    (f : option string -> CORSOrigin) :
  p_origin o = Some (OFun f) ->
  isFunction (f (Headers.get (headers req) "origin")) = false ->
  resolveOptions req (Some (Static o))
  = Ok (set_origin (spread defaults o) (f (Headers.get (headers req) "origin"))).
Proof.
  intros Ho Hv. unfold resolveOptions, resolveOrigin, mergeOptions. simpl.
  rewrite Ho. simpl. now rewrite Hv.
Qed.

(** C2: when the resolved origin rule is [false], the returned header
    collection is empty, whatever the method and the other fields. *)
Theorem origin_false_disables_cors (req : Request) (options : option Config)
    (co : CORSOptions) :
  resolveOptions req options = Ok co ->
  origin co = OBool false ->
  cors req options = Ok Headers.new
  /\ forall name, Headers.get Headers.new name = None.
Proof.
  intros Hr Ho. split; [|reflexivity].
  rewrite (cors_resolved _ _ _ Hr). unfold buildHeaders. now rewrite Ho.
Qed.

Lemma origin_false_disables_cors_witness :
  let req := {| method := "OPTIONS";
                headers := [("Origin", "https://example.com");
                            ("Access-Control-Request-Headers", "X-Header-1")] |} in
  let options :=
    Some (Static {| p_allowedHeaders := Some (SArr ["FIZZ"; "buzz"]);
                    p_allowedMethods := Some (SArr ["FOO"; "bar"]);
                    p_credentials := Some true;
                    p_exposedHeaders := Some (SStr "X-Exposed");
                    p_maxAge := Some 123%Z;
                    p_origin := Some (OFun (fun _ => OBool false)) |}) in
  cors req options = Ok Headers.new
  /\ forall name, Headers.get Headers.new name = None.
Proof.
  intros req options.
  exact (origin_false_disables_cors req options _ eq_refl eq_refl).
Defined.

Example origin_false_static :
  cors {| method := "GET"; headers := [("Origin", "https://example.com")] |}
       (Some (Static {| p_allowedHeaders := None;
                        p_allowedMethods := Some (SArr ["FOO"]);
                        p_credentials := Some true;
                        p_exposedHeaders := None;
                        p_maxAge := None;
                        p_origin := Some (OBool false) |}))
  = Ok [].
Proof. reflexivity. Qed.

(** ** The origin matcher *)

Lemma CORSOrigin_nested_ind (P : CORSOrigin -> Prop) :
  (forall b, P (OBool b)) ->
  (forall s, P (OStr s)) ->
  (forall r, P (ORegExp r)) ->
  (forall items, Forall P items -> P (OArr items)) ->
  (forall f, P (OFun f)) ->
  (forall n, P (ONum n)) ->
  P ONull ->
  P OUndefined ->
  forall v, P v.
Proof.
  intros Hb Hs Hr Ha Hf Hn Hnull Hundef.
  fix IH 1.
  intros [b|s|r|items|f|n| |];
    [apply Hb | apply Hs | apply Hr | | apply Hf | apply Hn | exact Hnull | exact Hundef].
  apply Ha. induction items as [|x items IHitems].
  - apply List.Forall_nil.
  - apply List.Forall_cons; [apply IH | exact IHitems].
Qed.

(** The loop over an array is the search for a first item that allows. *)
Lemma isOriginAllowed_array (o : string) (items : list CORSOrigin) :
  isOriginAllowed o (OArr items) = existsb (isOriginAllowed o) items.
Proof.
  induction items as [|x items IH]; [reflexivity|].
  change (isOriginAllowed o (OArr (x :: items)))
    with (if isOriginAllowed o x then true else isOriginAllowed o (OArr items)).
  rewrite IH. simpl. now destruct (isOriginAllowed o x).
Qed.

Lemma is_rule_array (items : list CORSOrigin) :
  is_rule (OArr items) = forallb is_rule items.
Proof.
  induction items as [|x items IH]; [reflexivity|].
  change (is_rule (OArr (x :: items))) with (is_rule x && is_rule (OArr items)).
  now rewrite IH.
Qed.

(** On the rules the spec describes, the code's matcher is the spec's
    judgement. *)
Lemma isOriginAllowed_Allows (o : string) (rule : CORSOrigin) :
  is_rule rule = true ->
  (isOriginAllowed o rule = true <-> Allows o rule).
Proof.
  induction rule as [b|s|r|items IH|f|n| |] using CORSOrigin_nested_ind;
    try discriminate.
  - simpl. intros ->. split; [constructor | reflexivity].
  - intros _. simpl. rewrite String.eqb_eq. split.
    + intros ->. constructor.
    + now inversion 1.
  - intros _. simpl. split.
    + now constructor.
    + now inversion 1.
  - rewrite is_rule_array, isOriginAllowed_array, forallb_forall, existsb_exists.
    intros Hrule. rewrite List.Forall_forall in IH. split.
    + intros (x & Hin & Hx). apply (allows_list o items x Hin).
      apply IH; auto.
    + inversion 1 as [| | |items' x Hin Hx]; subst. exists x. split; [exact Hin|].
      apply IH; auto.
Qed.

(** The empty list allows nothing. *)
Lemma empty_list_allows_nothing (o : string) : ~ Allows o (OArr []).
Proof. inversion 1 as [| | |items x Hin _]. destruct Hin. Qed.

Lemma is_rule_truthy (v : CORSOrigin) : is_rule v = true -> truthy v = true \/ isString v = true.
Proof. destruct v; simpl; auto; discriminate. Qed.

(** The reflect branch of [configureOrigin]. *)
Lemma configureOrigin_reflect (co : CORSOptions) (req : Request) (o : string) :
  truthy (origin co) = true -> isString (origin co) = false ->
  Headers.get (headers req) "origin" = Some o -> o <> "" ->
  configureOrigin co req =
  [ {| key := "Access-Control-Allow-Origin";
       value := if isOriginAllowed o (origin co) then VStr o else VBool false |};
    {| key := "Vary"; value := VStr "Origin" |} ].
Proof.
  intros Ht Hs Hg Ho. unfold configureOrigin. rewrite Ht, Hs, Hg.
  apply truthy_string_true in Ho. rewrite Ho.
  assert (is_star (origin co) = false) as ->
    by (destruct (origin co); try reflexivity; discriminate).
  simpl. now destruct (isOriginAllowed o (origin co)).
Qed.

(** What the whole pipeline leaves under [Access-Control-Allow-Origin] is
    what [configureOrigin] put there. *)
Lemma acao_values (co : CORSOptions) (req : Request) :
  truthy (origin co) = true ->
  Headers.values (applyHeaders (buildHeaders co req) Headers.new)
                 "Access-Control-Allow-Origin"
  = Headers.values (applyHeader (items_of (configureOrigin co req)) Headers.new)
                   "Access-Control-Allow-Origin".
Proof.
  intros Ht. unfold buildHeaders. rewrite Ht.
  destruct (toUpperCase (method req) =? "OPTIONS");
    rewrite !applyHeaders_cons, applyHeaders_nil; now skip_others.
Qed.

Lemma truthy_value_of_opt (x : option string) :
  truthy_value (value_of_opt x) = truthy_opt x.
Proof. now destruct x. Qed.

Lemma truthy_opt_Some (x : option string) :
  truthy_opt x = true <-> exists s, x = Some s /\ s <> "".
Proof.
  destruct x as [s|]; simpl.
  - rewrite truthy_string_true. split; [eauto | now intros (? & [= <-] & ?)].
  - split; [discriminate | now intros (? & ? & _)].
Qed.

(** ** [Vary] *)

Lemma values_origin_vary (co : CORSOptions) (req : Request) (hs : Headers.t) :
  Headers.values (applyHeader (items_of (configureOrigin co req)) hs) "Vary"
  = (Headers.values hs "Vary" ++
     if negb (truthy (origin co)) || is_star (origin co) then [] else ["Origin"])%list.
Proof.
  unfold configureOrigin.
  destruct (negb (truthy (origin co)) || is_star (origin co)).
  - rewrite applyHeader_items_cons, applyHeader_items_nil.
    rewrite values_applyObj_other by reflexivity. now rewrite app_nil_r.
  - destruct (isString (origin co));
      rewrite !applyHeader_items_cons, applyHeader_items_nil, values_applyObj;
      rewrite values_applyObj_other by reflexivity; reflexivity.
Qed.

Lemma values_allowedHeaders_vary (co : CORSOptions) (req : Request) (hs : Headers.t) :
  Headers.values (applyHeader (items_of (configureAllowedHeaders co req)) hs) "Vary"
  = (Headers.values hs "Vary" ++
     if negb (truthy_opt (joinIfArray (allowedHeaders co)))
        && truthy_opt (Headers.get (headers req) "access-control-request-headers")
     then ["Access-Control-Request-Headers"] else [])%list.
Proof.
  unfold configureAllowedHeaders. cbv zeta.
  destruct (truthy_opt (joinIfArray (allowedHeaders co))) eqn:Hj; simpl negb; cbv iota.
  - simpl andb. cbv iota. rewrite Hj. simpl app.
    rewrite applyHeader_items_cons, applyHeader_items_nil.
    rewrite values_applyObj_other by reflexivity. now rewrite app_nil_r.
  - simpl andb.
    destruct (truthy_opt (Headers.get (headers req) "access-control-request-headers"));
      simpl app.
    + rewrite !applyHeader_items_cons, applyHeader_items_nil.
      rewrite values_applyObj_other by reflexivity.
      rewrite values_applyObj. reflexivity.
    + now rewrite applyHeader_items_nil, app_nil_r.
Qed.

(** The [Vary] values of a result, in order: [Origin] unless the rule is
    the wildcard, then [Access-Control-Request-Headers] when a preflight
    reflects the requested headers. *)
Lemma vary_values (co : CORSOptions) (req : Request) :
  truthy (origin co) = true ->
  Headers.values (applyHeaders (buildHeaders co req) Headers.new) "Vary"
  = ((if is_star (origin co) then [] else ["Origin"]) ++
     if eq_ignore_case (method req) "OPTIONS"
        && (negb (truthy_opt (joinIfArray (allowedHeaders co)))
            && truthy_opt (Headers.get (headers req) "access-control-request-headers"))
     then ["Access-Control-Request-Headers"] else [])%list.
Proof.
  intros Ht. unfold buildHeaders. rewrite Ht, method_is_OPTIONS.
  destruct (eq_ignore_case (method req) "OPTIONS"); simpl andb; cbv iota;
    rewrite !applyHeaders_cons, applyHeaders_nil; skip_others.
  - rewrite values_allowedHeaders_vary. skip_others.
    rewrite values_origin_vary, Ht. reflexivity.
  - rewrite values_origin_vary, Ht. simpl. now rewrite app_nil_r.
Qed.

(** On the header list: for a request with a non-empty [Origin] header [o] and a
    resolved origin rule that is [true], a pattern or a list, the result
    has [Access-Control-Allow-Origin] equal to [o] exactly when the rule
    allows [o], has no such header otherwise, and has the [Vary] value
    [Origin] either way. *)
Lemma reflect_origin_iff_allowed_list (req : Request) (options : option Config)
    (co : CORSOptions) (o : string) :
  resolveOptions req options = Ok co ->
  Headers.get (headers req) "origin" = Some o ->
  o <> "" ->
  is_rule (origin co) = true -> isString (origin co) = false ->
  exists h, cors req options = Ok h
            /\ (Headers.get h "Access-Control-Allow-Origin" = Some o
                <-> Allows o (origin co))
            /\ (~ Allows o (origin co)
                -> Headers.get h "Access-Control-Allow-Origin" = None)
            /\ In "Origin" (Headers.values h "Vary").
Proof.
  intros Hr Hg Ho Hrule Hs. rewrite (cors_resolved _ _ _ Hr).
  eexists. split; [reflexivity|].
  assert (Ht : truthy (origin co) = true)
    by (destruct (is_rule_truthy _ Hrule); congruence).
  pose proof (isOriginAllowed_Allows o _ Hrule) as Hallow.
  assert (Hv : Headers.values (applyHeaders (buildHeaders co req) Headers.new)
                              "Access-Control-Allow-Origin"
               = if isOriginAllowed o (origin co) then [o] else []).
  { rewrite (acao_values _ _ Ht), (configureOrigin_reflect _ _ _ Ht Hs Hg Ho).
    rewrite !applyHeader_items_cons, applyHeader_items_nil.
    rewrite values_applyObj_other by reflexivity. rewrite values_applyObj.
    apply truthy_string_true in Ho.
    destruct (isOriginAllowed o (origin co)); simpl; [now rewrite Ho | reflexivity]. }
  unfold Headers.get. rewrite Hv, (vary_values _ _ Ht).
  assert (is_star (origin co) = false) as ->
    by (destruct (origin co); try reflexivity; discriminate).
  destruct (isOriginAllowed o (origin co)).
  - split; [|split].
    + split; [intros _; now apply Hallow | reflexivity].
    + intros Hn. exfalso. now apply Hn, Hallow.
    + now left.
  - split; [|split].
    + split; [discriminate | intros Ha%Hallow; discriminate].
    + reflexivity.
    + now left.
Qed.

Example origin_list_match :
  cors {| method := "GET"; headers := [("Origin", "https://example.com")] |}
       (Some (Static {| p_allowedHeaders := None; p_allowedMethods := None;
                        p_credentials := None; p_exposedHeaders := None;
                        p_maxAge := None;
                        p_origin := Some (OArr [ORegExp {| test := String.prefix "http://" |};
                                                OStr "https://example.com"]) |}))
  = Ok [("Access-Control-Allow-Origin", "https://example.com"); ("Vary", "Origin")].
Proof. reflexivity. Qed.

Example origin_list_no_match :
  cors {| method := "GET"; headers := [("Origin", "https://example.com")] |}
       (Some (Static {| p_allowedHeaders := None; p_allowedMethods := None;
                        p_credentials := None; p_exposedHeaders := None;
                        p_maxAge := None;
                        p_origin := Some (OArr [ORegExp {| test := String.prefix "http://" |};
                                                OStr "bar.com"]) |}))
  = Ok [("Vary", "Origin")].
Proof. reflexivity. Qed.

Example fixed_item_is_case_sensitive :
  isOriginAllowed "https://Example.com" (OArr [OStr "https://example.com"]) = false.
Proof. reflexivity. Qed.

(** ** Fixed origin *)

(** On the header list: when the resolved origin is a non-empty string [s], the
    result has [Access-Control-Allow-Origin] equal to [s] whatever the
    request's own origin; it has the [Vary] value [Origin] when [s] is not
    "*", and no [Vary] value [Origin] when [s] is "*" (the wildcard
    branch). *)
Lemma fixed_origin_list (req : Request) (options : option Config) (co : CORSOptions)
    (s : string) :
  resolveOptions req options = Ok co ->
  origin co = OStr s ->
  s <> "" ->
  exists h, cors req options = Ok h
            /\ Headers.get h "Access-Control-Allow-Origin" = Some s
            /\ (s <> "*" -> In "Origin" (Headers.values h "Vary"))
            /\ (s = "*" -> ~ In "Origin" (Headers.values h "Vary")).
Proof.
  intros Hr Ho Hs. rewrite (cors_resolved _ _ _ Hr).
  eexists. split; [reflexivity|].
  apply truthy_string_true in Hs.
  assert (Ht : truthy (origin co) = true) by now rewrite Ho.
  unfold Headers.get. rewrite (acao_values _ _ Ht), (vary_values _ _ Ht).
  unfold configureOrigin. rewrite Ho. cbn [truthy isString is_star]. rewrite Hs.
  simpl negb. simpl orb. destruct (String.eqb_spec s "*") as [->|Hne].
  - split; [reflexivity|]. split; [congruence|]. intros _.
    destruct (_ && _); simpl; intuition discriminate.
  - rewrite !applyHeader_items_cons, applyHeader_items_nil.
    rewrite values_applyObj_other by reflexivity. rewrite values_applyObj.
    cbn [value key truthy_value String_of_value]. rewrite Hs.
    split; [reflexivity|]. split; [now left | congruence].
Qed.

(** ** The one failure *)


Example nested_callback_throws :
  cors {| method := "GET"; headers := [("Origin", "https://example.com")] |}
       (Some (Static {| p_allowedHeaders := None; p_allowedMethods := None;
                        p_credentials := None; p_exposedHeaders := None;
                        p_maxAge := None;
                        p_origin := Some (OFun (fun _ => OFun (fun _ => OBool true))) |}))
  = Throw (Error "Origin callback result cannot be a function.").
Proof. reflexivity. Qed.

Example no_origin_empty_arrays_zero_maxAge :
  cors {| method := "OPTIONS"; headers := [] |}
       (Some (Static {| p_allowedHeaders := Some (SArr []);
                        p_allowedMethods := Some (SArr []);
                        p_credentials := None;
                        p_exposedHeaders := Some (SArr []);
                        p_maxAge := Some 0%Z;
                        p_origin := Some (OArr []) |}))
  = Ok [("Vary", "Origin"); ("Access-Control-Max-Age", "0"); ("Content-Length", "0")].
Proof. reflexivity. Qed.

(** ** Appending to [Vary] *)




(** ** Preflight headers *)

Lemma values_allowedHeaders_acah (co : CORSOptions) (req : Request) (hs : Headers.t) :
  Headers.values (applyHeader (items_of (configureAllowedHeaders co req)) hs)
                 "Access-Control-Allow-Headers"
  = if truthy_opt (joinIfArray (allowedHeaders co))
    then option_list (joinIfArray (allowedHeaders co))
    else if truthy_opt (Headers.get (headers req) "access-control-request-headers")
         then option_list (Headers.get (headers req) "access-control-request-headers")
         else Headers.values hs "Access-Control-Allow-Headers".
Proof.
  unfold configureAllowedHeaders. cbv zeta.
  destruct (truthy_opt (joinIfArray (allowedHeaders co))) eqn:Hj; simpl negb; cbv iota.
  - simpl andb. cbv iota. rewrite Hj. simpl app.
    rewrite applyHeader_items_cons, applyHeader_items_nil, values_applyObj.
    cbn [key value]. rewrite truthy_value_of_opt, Hj.
    apply truthy_opt_Some in Hj as (s & -> & _). reflexivity.
  - simpl andb.
    destruct (truthy_opt (Headers.get (headers req) "access-control-request-headers"))
      eqn:Ha; simpl app.
    + rewrite !applyHeader_items_cons, applyHeader_items_nil, values_applyObj.
      cbn [key value]. rewrite truthy_value_of_opt, Ha.
      apply truthy_opt_Some in Ha as (s & -> & _). reflexivity.
    + now rewrite applyHeader_items_nil.
Qed.

(** What a result holds under [Access-Control-Allow-Headers]. *)
Lemma acah_values (co : CORSOptions) (req : Request) :
  truthy (origin co) = true ->
  eq_ignore_case (method req) "OPTIONS" = true ->
  Headers.values (applyHeaders (buildHeaders co req) Headers.new)
                 "Access-Control-Allow-Headers"
  = if truthy_opt (joinIfArray (allowedHeaders co))
    then option_list (joinIfArray (allowedHeaders co))
    else if truthy_opt (Headers.get (headers req) "access-control-request-headers")
         then option_list (Headers.get (headers req) "access-control-request-headers")
         else [].
Proof.
  intros Ht Hm. unfold buildHeaders. rewrite Ht, method_is_OPTIONS, Hm.
  rewrite !applyHeaders_cons, applyHeaders_nil. skip_others.
  rewrite values_allowedHeaders_acah. now skip_others.
Qed.

Lemma acah_get (co : CORSOptions) (req : Request) :
  truthy (origin co) = true ->
  eq_ignore_case (method req) "OPTIONS" = true ->
  Headers.get (applyHeaders (buildHeaders co req) Headers.new)
              "Access-Control-Allow-Headers"
  = if truthy_opt (joinIfArray (allowedHeaders co))
    then joinIfArray (allowedHeaders co)
    else if truthy_opt (Headers.get (headers req) "access-control-request-headers")
         then Headers.get (headers req) "access-control-request-headers"
         else None.
Proof.
  intros Ht Hm. unfold Headers.get at 1. rewrite (acah_values _ _ Ht Hm).
  destruct (joinIfArray (allowedHeaders co)) as [s|]; simpl;
    [destruct (truthy_string s); [reflexivity|] |];
    (destruct (Headers.get (headers req) "access-control-request-headers") as [a|];
     simpl; [destruct (truthy_string a)|]; reflexivity).
Qed.

(** On the header list: on an OPTIONS request under an enabled origin rule, an
    [allowedHeaders] whose joined value [s] is non-empty gives
    [Access-Control-Allow-Headers: s] and no [Vary] value
    [Access-Control-Request-Headers]; an [allowedHeaders] that is unset or
    joins to the empty string reflects a non-empty
    [Access-Control-Request-Headers] request header, with that [Vary]
    value, and emits neither when the request header is absent. *)
Lemma allowed_headers_list (req : Request) (options : option Config) (co : CORSOptions) :
  resolveOptions req options = Ok co ->
  eq_ignore_case (method req) "OPTIONS" = true ->
  truthy (origin co) = true ->
  exists h,
    cors req options = Ok h
    /\ (forall s, joinIfArray (allowedHeaders co) = Some s -> s <> "" ->
          Headers.get h "Access-Control-Allow-Headers" = Some s
          /\ ~ In "Access-Control-Request-Headers" (Headers.values h "Vary"))
    /\ (joinIfArray (allowedHeaders co) = None
        \/ joinIfArray (allowedHeaders co) = Some "" ->
        (forall a, Headers.get (headers req) "access-control-request-headers" = Some a ->
                   a <> "" ->
                   Headers.get h "Access-Control-Allow-Headers" = Some a
                   /\ In "Access-Control-Request-Headers" (Headers.values h "Vary"))
        /\ (Headers.get (headers req) "access-control-request-headers" = None ->
            Headers.get h "Access-Control-Allow-Headers" = None
            /\ ~ In "Access-Control-Request-Headers" (Headers.values h "Vary"))).
Proof.
  intros Hr Hm Ht. rewrite (cors_resolved _ _ _ Hr).
  eexists. split; [reflexivity|].
  rewrite (acah_get _ _ Ht Hm), (vary_values _ _ Ht), Hm.
  split.
  - intros s -> Hs%truthy_string_true. simpl. rewrite Hs. simpl.
    split; [reflexivity|]. rewrite app_nil_r.
    destruct (is_star (origin co)); simpl; intuition discriminate.
  - intros Hj.
    assert (Hf : truthy_opt (joinIfArray (allowedHeaders co)) = false)
      by (destruct Hj as [-> | ->]; reflexivity).
    rewrite Hf. simpl. split.
    + intros a -> Ha%truthy_string_true. simpl. rewrite Ha.
      split; [reflexivity|]. apply in_or_app. right. now left.
    + intros ->. simpl. split; [reflexivity|]. rewrite app_nil_r.
      destruct (is_star (origin co)); simpl; intuition discriminate.
Qed.




Example static_options_override :
  cors {| method := "OPTIONS";
          headers := [("Origin", "https://example.com");
                      ("Access-Control-Request-Headers", "X-Header-1,X-Header-2")] |}
       (Some (Static {| p_allowedHeaders := Some (SArr ["FIZZ"; "buzz"]);
                        p_allowedMethods := Some (SArr ["FOO"; "bar"]);
                        p_credentials := Some true;
                        p_exposedHeaders := None;
                        p_maxAge := Some 123%Z;
                        p_origin := Some (OStr "http://example.com") |}))
  = Ok [("Access-Control-Allow-Origin", "http://example.com");
        ("Vary", "Origin");
        ("Access-Control-Allow-Credentials", "true");
        ("Access-Control-Allow-Methods", "FOO,bar");
        ("Access-Control-Allow-Headers", "FIZZ,buzz");
        ("Access-Control-Max-Age", "123");
        ("Content-Length", "0")].
Proof. reflexivity. Qed.

(** ** The origin matcher on other list items *)

(** C10: a list item that is neither an array, a string nor a pattern is
    judged by its truthiness: a list with a truthy such item (the literal
    [true], say) allows every origin, and a list of falsy such items allows
    none. *)
Theorem list_items_by_truthiness (o : string) :
  (forall v, is_other v = true -> isOriginAllowed o v = truthy v)
  /\ (forall items v, In v items -> is_other v = true -> truthy v = true ->
                      isOriginAllowed o (OArr items) = true)
  /\ (forall items, (forall v, In v items -> is_other v = true /\ truthy v = false) ->
                    isOriginAllowed o (OArr items) = false)
  /\ isOriginAllowed o (OArr [OBool true]) = true.
Proof.
  assert (H0 : forall v, is_other v = true -> isOriginAllowed o v = truthy v)
    by (intros [b|s|r|items|f|n| |]; (discriminate || reflexivity)).
  split; [exact H0|]. split; [|split; [|reflexivity]].
  - intros items v Hin Hv Ht. rewrite isOriginAllowed_array.
    apply existsb_exists. exists v. split; [exact Hin|]. now rewrite H0.
  - intros items H. rewrite isOriginAllowed_array.
    apply not_true_is_false. intros (v & Hin & Hv)%existsb_exists.
    destruct (H v Hin) as [Hother Hfalse]. rewrite H0 in Hv by exact Hother.
    congruence.
Qed.

Example list_with_true_allows :
  isOriginAllowed "https://evil.example" (OArr [OStr "https://example.com"; OBool true])
  = true.
Proof. reflexivity. Qed.

Example list_with_number_allows :
  isOriginAllowed "https://evil.example" (OArr [ONum 1; OStr "https://example.com"])
  = true.
Proof. reflexivity. Qed.

Example list_of_falsy_allows_none :
  isOriginAllowed "https://example.com" (OArr [OBool false; ONull; OUndefined; ONum 0])
  = false.
Proof. reflexivity. Qed.

(** ** The caller's configuration object *)

Lemma HeaderItem_nested_ind (P : HeaderItem -> Prop) :
  P HUndefined ->
  (forall h, P (HObj h)) ->
  (forall l, Forall P l -> P (HArr l)) ->
  forall item, P item.
Proof.
  intros Hu Ho Ha. fix IH 1.
  intros [|h|l]; [exact Hu | apply Ho | apply Ha].
  induction l as [|x l IHl].
  - apply List.Forall_nil.
  - apply List.Forall_cons; [apply IH | exact IHl].
Qed.

Lemma fresh_unallocated (s : store) : s !! fresh (dom s) = None.
Proof. apply not_elem_of_dom, is_fresh. Qed.

(** [scan] runs out of indices, not of fuel: when a pattern that is not
    sticky is refused from [i] on, it matches at no index from [i] to the
    end of the string. *)
Lemma scan_refuses (p : Pattern) (s : string) (fuel i : nat) :
  sticky p = false ->
  (String.length s <= i + fuel)%nat ->
  scan p s fuel i = None ->
  forall j, (i <= j <= String.length s)%nat -> matchAt p s j = None.
Proof.
  intros Hst. revert i. induction fuel as [|fuel IH]; intros i Hlen; simpl.
  - destruct (Nat.ltb_spec (String.length s) i) as [Hlt|Hge].
    + intros _ j Hj. lia.
    + destruct (matchAt p s i) eqn:Hm; [discriminate|]. intros _ j Hj.
      assert (j = i) as -> by lia. exact Hm.
  - destruct (Nat.ltb_spec (String.length s) i) as [Hlt|Hge].
    + intros _ j Hj. lia.
    + destruct (matchAt p s i) eqn:Hm; [discriminate|]. rewrite Hst.
      intros Hscan j Hj. destruct (decide (j = i)) as [->|Hne]; [exact Hm|].
      apply (IH (S i)); [lia | exact Hscan | lia].
Qed.

(** A pattern without flags keeps its [lastIndex], whatever it was, and
    its answer does not depend on it. *)
Lemma regexp_test_unflagged (p : Pattern) (li : nat) (s : string) :
  flagged p = false ->
  regexp_test p li s = (fst (regexp_test p 0 s), li).
Proof.
  intros Hf. unfold regexp_test. rewrite Hf.
  now destruct (scan p s (String.length s) 0).
Qed.

Lemma kept_refl (s : store) : kept s s.
Proof.
  split; [auto|]. intros l fr p li H. exists li. auto.
Qed.

Lemma kept_unallocated (s0 s : store) (l : loc) :
  kept s0 s -> s !! l = None -> s0 !! l = None.
Proof.
  intros [Ho Hr] Hl. destruct (s0 !! l) as [[fr p|fr p li]|] eqn:E; [| |reflexivity].
  - rewrite (Ho _ _ _ E) in Hl. discriminate.
  - destruct (Hr _ _ _ _ E) as (li' & Hli & _). rewrite Hli in Hl. discriminate.
Qed.

Lemma kept_insert_new (s0 s : store) (l : loc) (x : Object) :
  kept s0 s -> s0 !! l = None -> kept s0 (<[l := x]> s).
Proof.
  intros [Ho Hr] Hl. split.
  - intros l' fr p E. rewrite lookup_insert_ne by congruence. now apply Ho.
  - intros l' fr p li E. rewrite lookup_insert_ne by congruence. now apply Hr.
Qed.

Lemma kept_lastIndex (s0 s : store) (l : loc) (p : Pattern) (li li' : nat) :
  kept s0 s ->
  s !! l = Some (RegExpObject false p li) ->
  flagged p = true ->
  kept s0 (<[l := RegExpObject false p li']> s).
Proof.
  intros [Ho Hr] Hl Hf. split.
  - intros l' fr q E. destruct (decide (l' = l)) as [->|Hne].
    + rewrite (Ho _ _ _ E) in Hl. discriminate.
    + rewrite lookup_insert_ne by congruence. now apply Ho.
  - intros l' fr q lq E. destruct (decide (l' = l)) as [->|Hne].
    + destruct (Hr _ _ _ _ E) as (lq' & Hq & _). rewrite Hq in Hl.
      injection Hl as -> -> _. exists li'. rewrite lookup_insert_eq.
      split; [reflexivity|]. intros [H|H]; congruence.
    + rewrite lookup_insert_ne by congruence. now apply Hr.
Qed.

Lemma respects_bind {A B} (s0 : store) (m : M A) (k : A -> M B) (s : store) :
  respects s0 (m s) ->
  (forall a s', m s = (Ok a, s') -> kept s0 s' -> respects s0 (k a s')) ->
  respects s0 (bind m k s).
Proof.
  unfold bind. destruct (m s) as [[a|e] s'] eqn:E; intros [Hk He] Hnext.
  - apply Hnext; [reflexivity | exact Hk].
  - split; [exact Hk|]. intros e' [= <-]. now apply He.
Qed.

Lemma respects_pure {A} (s0 s : store) (a : A) :
  kept s0 s -> respects s0 (Ok a, s).
Proof. intros Hk. split; [exact Hk | discriminate]. Qed.

Lemma test_store_respects (s0 s : store) (l : loc) (o : string) :
  kept s0 s -> respects s0 (test_store l o s).
Proof.
  intros Hk. unfold test_store.
  destruct (s !! l) as [[fr p|fr p li]|] eqn:E; try now apply respects_pure.
  destruct (regexp_test p li o) as [b li'].
  destruct (flagged p) eqn:Hf; [|now apply respects_pure].
  destruct fr.
  - split; [exact Hk|]. intros e [= <-]. discriminate.
  - apply respects_pure. now apply (kept_lastIndex s0 s l p li li').
Qed.

Lemma OriginRef_nested_ind (P : OriginRef -> Prop) :
  (forall b, P (RBool b)) ->
  (forall s, P (RStr s)) ->
  (forall l, P (RObject l)) ->
  (forall items, Forall P items -> P (RArr items)) ->
  (forall f, P (RFun f)) ->
  (forall n, P (RNum n)) ->
  P RNull ->
  P RUndefined ->
  forall v, P v.
Proof.
  intros Hb Hs Hl Ha Hf Hn Hnull Hundef.
  fix IH 1.
  intros [b|s|l|items|f|n| |];
    [apply Hb | apply Hs | apply Hl | | apply Hf | apply Hn | exact Hnull | exact Hundef].
  apply Ha. induction items as [|x items IHitems].
  - apply List.Forall_nil.
  - apply List.Forall_cons; [apply IH | exact IHitems].
Qed.

Lemma isOriginAllowed_store_respects (s0 : store) (o : string) (v : OriginRef) :
  forall s, kept s0 s -> respects s0 (isOriginAllowed_store o v s).
Proof.
  induction v as [b|str|l|items IH|f|n| |] using OriginRef_nested_ind;
    intros s Hk; try (now apply respects_pure).
  - now apply test_store_respects.
  - revert s Hk. induction IH as [|x items Hx _ IHitems]; intros s Hk.
    + now apply respects_pure.
    + change (isOriginAllowed_store o (RArr (x :: items)) s)
        with (bind (isOriginAllowed_store o x)
                   (fun b => if b then ret true
                             else isOriginAllowed_store o (RArr items)) s).
      apply respects_bind; [now apply Hx|].
      intros [|] s' _ Hk'; [now apply respects_pure | now apply IHitems].
Qed.

Lemma configureOrigin_store_respects (s0 s : store) (v : OriginRef) (req : Request) :
  kept s0 s -> respects s0 (configureOrigin_store v req s).
Proof.
  intros Hk. unfold configureOrigin_store.
  destruct (negb (truthyRef v) || is_starRef v); [now apply respects_pure|].
  destruct (isStringRef v); [now apply respects_pure|].
  apply respects_bind.
  - destruct (Headers.get (headers req) "origin") as [o|];
      [destruct (truthy_string o)|]; try now apply respects_pure.
    now apply isOriginAllowed_store_respects.
  - intros b s' _ Hk'. now apply respects_pure.
Qed.

(** The platform's [Headers] methods throw nothing but the refusal of a
    value. *)
Lemma applyHeader_platform_throws (item : HeaderItem) (hs : Headers.t) (e : Exn) :
  applyHeader_platform item hs = Throw e -> e = Platform.invalid_value.
Proof.
  revert hs. induction item as [|h|l IH] using HeaderItem_nested_ind; intros hs.
  - discriminate.
  - simpl. unfold Platform.append, Platform.set.
    destruct (_ && _); [destruct (Platform.valid _); [discriminate | now intros [= <-]]|].
    destruct (truthy_value _); [|discriminate].
    destruct (Platform.valid _); [discriminate | now intros [= <-]].
  - revert hs. induction IH as [|x l Hx _ IHl]; intros hs; [discriminate|].
    change (applyHeader_platform (HArr (x :: l)) hs)
      with (match applyHeader_platform x hs with
            | Ok hs' => applyHeader_platform (HArr l) hs'
            | Throw e => Throw e
            end).
    destruct (applyHeader_platform x hs) as [hs'|e'] eqn:E.
    + apply IHl.
    + intros [= <-]. now apply (Hx hs).
Qed.

Lemma alloc_respects (s0 s : store) (p : StoredOptions) :
  kept s0 s -> respects s0 (alloc p s).
Proof.
  intros Hk. apply respects_pure, kept_insert_new; [exact Hk|].
  apply (kept_unallocated s0 s), fresh_unallocated. exact Hk.
Qed.

Lemma ownProps_respects (s0 s : store) (l : loc) :
  kept s0 s -> respects s0 (ownProps l s).
Proof.
  intros Hk. unfold ownProps.
  destruct (s !! l) as [[fr p|fr p li]|]; now apply respects_pure.
Qed.

Lemma ownProps_store (l : loc) (s s' : store) (p : StoredOptions) :
  ownProps l s = (Ok p, s') -> s' = s.
Proof.
  unfold ownProps. destruct (s !! l) as [[fr q|fr q li]|]; now intros [= _ <-].
Qed.

(** From any store on, a call keeps the objects of an earlier store [s0]
    and does not fail on the write of line 164. *)
Lemma cors_store_with_respects (req : Request) (c : ConfigRef) (s0 s : store) :
  kept s0 s -> respects s0 (cors_store_with req c s).
Proof.
  intros Hk. unfold cors_store_with. cbv zeta.
  apply respects_bind; [now apply alloc_respects|].
  intros l1 s1 _ Hk1.
  apply respects_bind; [now apply ownProps_respects|].
  intros base s1' Hbase Hk1'.
  apply respects_bind; [destruct c; now apply ownProps_respects|].
  intros over s1'' Hover Hk1''.
  apply respects_bind; [now apply alloc_respects|].
  intros l2 s2 Halloc Hk2. unfold alloc in Halloc. injection Halloc as <- <-.
  set (l2 := fresh (dom s1'')) in *.
  set (merged := spreadStored base over) in *.
  assert (Hfresh : s0 !! l2 = None)
    by (apply (kept_unallocated s0 s1''); [exact Hk1'' | apply fresh_unallocated]).
  unfold ownProps at 1. unfold bind at 1. rewrite lookup_insert_eq.
  set (s2 := <[l2 := OptionsObject false merged]> s1'') in *.
  assert (Hrest : forall (s3 : store),
             kept s0 s3 ->
             respects s0
               (bind (ownProps l2)
                  (fun final =>
                     bind (if truthyRef (originOf final)
                           then bind (configureOrigin_store (originOf final) req)
                                  (fun originHeaders =>
                                     ret (headersArr_store originHeaders
                                            (otherFields final) req))
                           else ret [])
                       (fun headersArr =>
                          lift (applyHeaders_platform headersArr Headers.new))) s3)).
  { intros s3 Hk3.
    apply respects_bind; [now apply ownProps_respects|].
    intros final s3' _ Hk3'.
    apply respects_bind.
    - destruct (truthyRef (originOf final)); [|now apply respects_pure].
      apply respects_bind; [now apply configureOrigin_store_respects|].
      intros oh s4 _ Hk4. now apply respects_pure.
    - intros arr s4 _ Hk4. unfold lift. split; [exact Hk4|].
      intros e He. simpl in He.
      rewrite (applyHeader_platform_throws _ _ _ He). discriminate. }
  destruct (originOf merged) as [b|str|l|items|f|n| |] eqn:Ho;
    try (apply respects_bind; [now apply respects_pure|];
         intros [] s3 [= <-] Hk3; now apply Hrest).
  destruct (isFunctionRef (f _)).
  - apply respects_bind.
    + split; [exact Hk2|]. intros e [= <-]. discriminate.
    + intros [] s3 H. discriminate H.
  - apply respects_bind.
    + unfold assignOrigin. subst s2. rewrite lookup_insert_eq.
      apply respects_pure. apply kept_insert_new; [exact Hk2 | exact Hfresh].
    + intros [] s3 _ Hk3. now apply Hrest.
Qed.

(** C9, as stated, fails for a nested value: a pattern with the [g] flag
    inside a frozen configuration object has its [lastIndex] moved by the
    match, here from 0 to 8. *)
Lemma nested_pattern_counterexample :
  ~ (forall (req : Request) (options : option ConfigRef) (s : store)
            (l : loc) (obj : Object),
        s !! l = Some obj -> (cors_store req options s).2 !! l = Some obj).
Proof.
  intros H.
  pose (https := {| matchAt := fun s i => if (i =? 0)%nat && String.prefix "https://" s
                                          then Some 8%nat else None;
                    global := true; sticky := false |}).
  pose (config := {| s_allowedHeaders := None; s_allowedMethods := None;
                     s_credentials := None; s_exposedHeaders := None;
                     s_maxAge := None; s_origin := Some (RObject 2%positive) |}).
  specialize (H {| method := "GET"; headers := [("Origin", "https://example.com")] |}
                (Some (RefObj 1%positive))
                (<[2%positive := RegExpObject false https 0]>
                   {[ 1%positive := OptionsObject true config ]})
                2%positive (RegExpObject false https 0) eq_refl).
  vm_compute in H. discriminate H.
Qed.

(** C9 (amended): a call keeps every options object of the caller's store
    as it was, own properties and frozen flag, and does not fail on a
    frozen configuration object (the write of line 164 goes to the working
    copy); a regular expression of the store keeps its pattern and flags,
    and its [lastIndex] too when it has neither the [g] nor the [y] flag or
    is frozen.  What [test] may change is the [lastIndex] of an unfrozen
    pattern with one of those flags. *)
Theorem config_object_untouched (req : Request) (options : option ConfigRef)
    (s : store) :
  (forall l fr p, s !! l = Some (OptionsObject fr p) ->
                  (cors_store req options s).2 !! l = Some (OptionsObject fr p))
  /\ (forall l fr p li, s !! l = Some (RegExpObject fr p li) ->
        exists li', (cors_store req options s).2 !! l = Some (RegExpObject fr p li')
                    /\ (flagged p = false \/ fr = true -> li' = li))
  /\ (cors_store req options s).1 <> Throw read_only_origin.
Proof.
  assert (H : respects s (cors_store req options s)).
  { destruct options as [c|]; simpl.
    - apply cors_store_with_respects, kept_refl.
    - apply respects_bind; [apply alloc_respects, kept_refl|].
      intros l0 s0' _ Hk. now apply cors_store_with_respects. }
  destruct H as [[Ho Hr] He]. split; [exact Ho|]. split; [exact Hr|].
  intros Ht. now apply (He _ Ht).
Qed.

(** The repository's test, on the store: a frozen options object with a
    string origin. *)
Example frozen_config :
  let config := {| s_allowedHeaders := None; s_allowedMethods := None;
                   s_credentials := None; s_exposedHeaders := None;
                   s_maxAge := None;
                   s_origin := Some (RStr "https://custom-origin.com") |} in
  let s : store := {[ 1%positive := OptionsObject true config ]} in
  let out := cors_store {| method := "GET";
                           headers := [("Origin", "https://example.com")] |}
                        (Some (RefObj 1%positive)) s in
  out.1 = Ok [("Access-Control-Allow-Origin", "https://custom-origin.com");
              ("Vary", "Origin")]
  /\ out.2 !! 1%positive = Some (OptionsObject true config).
Proof. vm_compute. split; reflexivity. Qed.

(** A pattern with the [g] flag across two calls with the same request and
    the same options: allowed, then refused. *)
Example global_pattern_two_calls :
  let https := {| matchAt := fun s i => if (i =? 0)%nat && String.prefix "https://" s
                                        then Some 8%nat else None;
                  global := true; sticky := false |} in
  let config := {| s_allowedHeaders := None; s_allowedMethods := None;
                   s_credentials := None; s_exposedHeaders := None;
                   s_maxAge := None; s_origin := Some (RObject 2%positive) |} in
  let s : store := <[2%positive := RegExpObject false https 0]>
                     {[ 1%positive := OptionsObject true config ]} in
  let req := {| method := "GET"; headers := [("Origin", "https://example.com")] |} in
  let first := cors_store req (Some (RefObj 1%positive)) s in
  let second := cors_store req (Some (RefObj 1%positive)) first.2 in
  first.1 = Ok [("Access-Control-Allow-Origin", "https://example.com");
                ("Vary", "Origin")]
  /\ first.2 !! 2%positive = Some (RegExpObject false https 8)
  /\ second.1 = Ok [("Vary", "Origin")]
  /\ second.2 !! 2%positive = Some (RegExpObject false https 0).
Proof. vm_compute. repeat split; reflexivity. Qed.

(** The same pattern twice in a list, at a [lastIndex] left by an earlier
    match: the first test fails and resets it, the second succeeds. *)
Example global_pattern_twice_in_a_list :
  let https := {| matchAt := fun s i => if (i =? 0)%nat && String.prefix "https://" s
                                        then Some 8%nat else None;
                  global := true; sticky := false |} in
  let s : store := {[ 2%positive := RegExpObject false https 8 ]} in
  (isOriginAllowed_store "https://example.com" (RArr [RObject 2%positive]) s).1
  = Ok false
  /\ (isOriginAllowed_store "https://example.com"
        (RArr [RObject 2%positive; RObject 2%positive]) s).1
     = Ok true.
Proof. vm_compute. split; reflexivity. Qed.

(** * Further properties of [cors.ts] *)

(** ** [applyHeaders]: nesting, and what it keeps *)

Lemma flatten_array_cons (x : HeaderItem) (r : list HeaderItem) :
  flatten (HArr (x :: r)) = (flatten x ++ flatten (HArr r))%list.
Proof. reflexivity. Qed.

Lemma applyHeaders_app (l1 l2 : list HeaderItem) (hs : Headers.t) :
  applyHeaders (l1 ++ l2)%list hs = applyHeaders l2 (applyHeaders l1 hs).
Proof.
  revert hs. induction l1 as [|x l1 IH]; intros hs; [reflexivity|].
  change ((x :: l1) ++ l2)%list with (x :: (l1 ++ l2))%list.
  now rewrite !applyHeaders_cons, IH.
Qed.

Lemma applyHeader_flatten (item : HeaderItem) (hs : Headers.t) :
  applyHeader item hs = applyHeaders (map HObj (flatten item)) hs.
Proof.
  revert hs. induction item as [|h|l IH] using HeaderItem_nested_ind; intros hs;
    [reflexivity | reflexivity |].
  induction IH as [|x l Hx _ IHl] in hs |- *; [reflexivity|].
  rewrite flatten_array_cons, map_app, applyHeaders_app, <- Hx.
  change (applyHeader (HArr (x :: l)) hs) with (applyHeader (HArr l) (applyHeader x hs)).
  apply IHl.
Qed.

(** X1: the nesting of the header array does not matter.  Applying an
    array is applying its header objects from left to right, and applying
    two arrays one after the other is applying their concatenation. *)
Theorem applyHeaders_flattens (l1 l2 : list HeaderItem) (hs : Headers.t) :
  applyHeaders l1 hs = applyHeaders (map HObj (flatten (HArr l1))) hs
  /\ applyHeaders (l1 ++ [HArr l2])%list hs = applyHeaders (l1 ++ l2)%list hs
  /\ applyHeaders (l1 ++ l2)%list hs = applyHeaders l2 (applyHeaders l1 hs).
Proof.
  split; [apply (applyHeader_flatten (HArr l1)) |].
  split; [|apply applyHeaders_app].
  rewrite !applyHeaders_app. reflexivity.
Qed.

Lemma in_remove (h : Headers.t) (k : string) (e : string * string) :
  In e (Headers.remove h k) -> In e h.
Proof.
  induction h as [|[k' v'] h IH]; simpl; [tauto|].
  destruct (Headers.same_name k' k); simpl; tauto.
Qed.

(** An entry of a header list after [set]: an old entry, or the new value
    under the new name or under the name of an old entry. *)
Lemma in_set (h : Headers.t) (k v k' v' : string) :
  In (k', v') (Headers.set h k v) ->
  In (k', v') h \/ (v' = v /\ (k' = k \/ exists v0, In (k', v0) h)).
Proof.
  induction h as [|[k0 v0] h IH]; simpl.
  - intros [[= <- <-]|[]]. right. auto.
  - destruct (Headers.same_name k0 k); simpl.
    + intros [[= <- <-]|Hin].
      * right. split; [reflexivity|]. right. exists v0. now left.
      * left. right. eapply in_remove, Hin.
    + intros [Heq|Hin]; [now left; left|].
      destruct (IH Hin) as [Hold|(-> & [->|(w & Hw)])]; [now left; right | |].
      * right. auto.
      * right. split; [reflexivity|]. right. exists w. now right.
Qed.

Lemma applyHeaders_leaves_ind (P : Headers.t -> Prop) (l : list HeaderObj)
    (hs : Headers.t) :
  P hs ->
  (forall h hs', In h l -> P hs' -> P (applyHeader (HObj h) hs')) ->
  P (applyHeaders (map HObj l) hs).
Proof.
  revert hs. induction l as [|h l IH]; intros hs Hhs Hstep; [exact Hhs|].
  change (map HObj (h :: l)) with (HObj h :: map HObj l).
  rewrite applyHeaders_cons. apply IH.
  - apply Hstep; [now left | exact Hhs].
  - intros h' hs' Hin. apply Hstep. now right.
Qed.

Lemma String_of_value_nonempty (v : HeaderValue) :
  truthy_value v = true -> String_of_value v <> "".
Proof.
  destruct v as [s|[]| |]; simpl; try discriminate.
  now intros H%truthy_string_true.
Qed.

(** On the header list, no header is written with an empty value.  [applyHeaders]
    keeps a header collection free of empty values, so the result of [cors]
    has none. *)
Lemma no_empty_header_value_list :
  (forall (l : list HeaderItem) (hs : Headers.t),
      Forall (fun e => snd e <> "") hs ->
      Forall (fun e => snd e <> "") (applyHeaders l hs))
  /\ (forall (req : Request) (options : option Config) (h : Headers.t),
         cors req options = Ok h -> Forall (fun e => snd e <> "") h).
Proof.
  assert (Hgen : forall (l : list HeaderItem) (hs : Headers.t),
             Forall (fun e => snd e <> "") hs ->
             Forall (fun e => snd e <> "") (applyHeaders l hs)).
  { intros l hs Hhs. unfold applyHeaders. rewrite applyHeader_flatten.
    apply applyHeaders_leaves_ind; [exact Hhs|].
    intros h hs' _ Hhs'. simpl.
    destruct (truthy_value (value h)) eqn:Ht;
      [|now rewrite andb_false_r].
    pose proof (String_of_value_nonempty _ Ht) as Hne.
    rewrite andb_true_r. destruct (key h =? "Vary").
    - unfold Headers.append. apply List.Forall_app. split; [exact Hhs'|].
      apply List.Forall_cons; [exact Hne | apply List.Forall_nil].
    - apply List.Forall_forall. intros [k' v'] Hin. simpl.
      rewrite List.Forall_forall in Hhs'.
      destruct (in_set _ _ _ _ _ Hin) as [Hold|[-> _]]; [|exact Hne].
      apply (Hhs' _ Hold). }
  split; [exact Hgen|].
  intros req options h. unfold cors.
  destruct (resolveOptions req options); [|discriminate].
  intros [= <-]. apply Hgen, List.Forall_nil.
Qed.

(** X3: a header other than [Vary] has at most one value.  [applyHeaders]
    keeps this for every name that is not [Vary], so in the result of
    [cors] only [Vary] can occur more than once. *)
Theorem single_valued_headers :
  (forall (l : list HeaderItem) (hs : Headers.t) (n : string),
      Headers.same_name "Vary" n = false ->
      (length (Headers.values hs n) <= 1)%nat ->
      (length (Headers.values (applyHeaders l hs) n) <= 1)%nat)
  /\ (forall (req : Request) (options : option Config) (h : Headers.t) (n : string),
         cors req options = Ok h ->
         Headers.same_name "Vary" n = false ->
         (length (Headers.values h n) <= 1)%nat).
Proof.
  assert (Hgen : forall (l : list HeaderItem) (hs : Headers.t) (n : string),
             Headers.same_name "Vary" n = false ->
             (length (Headers.values hs n) <= 1)%nat ->
             (length (Headers.values (applyHeaders l hs) n) <= 1)%nat).
  { intros l hs n Hn Hhs. unfold applyHeaders. rewrite applyHeader_flatten.
    apply (applyHeaders_leaves_ind
             (fun hs => (length (Headers.values hs n) <= 1)%nat)); [exact Hhs|].
    intros h hs' _ Hhs'. rewrite values_applyObj.
    destruct (truthy_value (value h)); [|exact Hhs'].
    destruct (String.eqb_spec (key h) "Vary") as [E|_].
    - rewrite E, Hn, app_nil_r. exact Hhs'.
    - destruct (Headers.same_name (key h) n); [simpl; lia | exact Hhs']. }
  split; [exact Hgen|].
  intros req options h n. unfold cors.
  destruct (resolveOptions req options); [|discriminate].
  intros [= <-] Hn. apply Hgen; [exact Hn | simpl; lia].
Qed.

Lemma single_valued_headers_witness :
  (length (Headers.values
             (applyHeaders [HObj {| key := "Content-Length"; value := VStr "0" |};
                            HObj {| key := "content-length"; value := VStr "12" |}]
                           [("Content-Length", "7")])
             "Content-Length") <= 1)%nat.
Proof.
  apply (proj1 single_valued_headers); [reflexivity | simpl; lia].
Defined.

(** ** The names [cors] writes *)

Lemma flatten_items_of (l : list HeaderObj) : flatten (items_of l) = l.
Proof.
  induction l as [|h l IH]; [reflexivity|].
  change (items_of (h :: l)) with (HArr (HObj h :: map HObj l)).
  rewrite flatten_array_cons. simpl. f_equal. exact IH.
Qed.

Lemma flatten_item_of (o : option HeaderObj) : flatten (item_of o) = option_list o.
Proof. now destruct o. Qed.

Lemma in_names_origin (co : CORSOptions) (req : Request) (h : HeaderObj) :
  In h (configureOrigin co req) ->
  key h = "Access-Control-Allow-Origin" \/ key h = "Vary".
Proof.
  pose proof (configureOrigin_keys co req) as H.
  rewrite List.Forall_forall in H. apply H.
Qed.

Lemma in_names_allowedHeaders (co : CORSOptions) (req : Request) (h : HeaderObj) :
  In h (configureAllowedHeaders co req) ->
  key h = "Access-Control-Allow-Headers" \/ key h = "Vary".
Proof.
  pose proof (configureAllowedHeaders_keys co req) as H.
  rewrite List.Forall_forall in H. apply H.
Qed.

Lemma in_option_list {A} (o : option A) (x : A) : In x (option_list o) -> o = Some x.
Proof. destruct o; simpl; [now intros [->|[]] | intros []]. Qed.

(** The header objects [buildHeaders] hands to [applyHeaders] carry one of
    the eight names; outside a preflight, one of four. *)
Lemma buildHeaders_keys (co : CORSOptions) (req : Request) (h : HeaderObj) :
  In h (flatten (HArr (buildHeaders co req))) ->
  In (key h) cors_header_names
  /\ (eq_ignore_case (method req) "OPTIONS" = false ->
      In (key h) [ "Access-Control-Allow-Origin"; "Vary";
                   "Access-Control-Allow-Credentials";
                   "Access-Control-Expose-Headers" ]).
Proof.
  unfold buildHeaders. rewrite method_is_OPTIONS.
  destruct (truthy (origin co)); [|intros []].
  destruct (eq_ignore_case (method req) "OPTIONS");
    rewrite !flatten_array_cons, !flatten_items_of, !flatten_item_of;
    rewrite !in_app_iff;
    intros H; (split; [|try discriminate; intros _]);
    repeat match type of H with
      | _ \/ _ => destruct H as [H|H]
      end;
    try (apply in_names_origin in H as [H|H]);
    try (apply in_names_allowedHeaders in H as [H|H]);
    try (apply in_option_list in H;
         first [ apply configureCredentials_key in H
               | apply configureMethods_key in H
               | apply configureMaxAge_key in H
               | apply configureExposedHeaders_key in H ]);
    try (simpl in H; destruct H as [<-|[]]);
    try (rewrite H); simpl; tauto.
Qed.

(** X4: [cors] writes only its own eight header names, spelled as in the
    source, and on a request that is not a preflight only
    [Access-Control-Allow-Origin], [Vary],
    [Access-Control-Allow-Credentials] and [Access-Control-Expose-Headers]. *)
Theorem only_cors_header_names (req : Request) (options : option Config)
    (h : Headers.t) (k v : string) :
  cors req options = Ok h ->
  In (k, v) h ->
  In k cors_header_names
  /\ (eq_ignore_case (method req) "OPTIONS" = false ->
      In k [ "Access-Control-Allow-Origin"; "Vary";
             "Access-Control-Allow-Credentials";
             "Access-Control-Expose-Headers" ]).
Proof.
  unfold cors. destruct (resolveOptions req options) as [co|]; [|discriminate].
  intros [= <-]. unfold applyHeaders. rewrite applyHeader_flatten.
  revert k v.
  apply (applyHeaders_leaves_ind
           (fun hs => forall k v, In (k, v) hs ->
              In k cors_header_names
              /\ (eq_ignore_case (method req) "OPTIONS" = false ->
                  In k [ "Access-Control-Allow-Origin"; "Vary";
                         "Access-Control-Allow-Credentials";
                         "Access-Control-Expose-Headers" ]))).
  - intros k v [].
  - intros o hs Ho Hhs k v. simpl.
    pose proof (buildHeaders_keys co req o Ho) as Hkey.
    destruct (truthy_value (value o)); [|rewrite andb_false_r; apply Hhs].
    rewrite andb_true_r. destruct (key o =? "Vary").
    + unfold Headers.append. rewrite in_app_iff.
      intros [Hin|[[= <- _]|[]]]; [now apply (Hhs k v) | exact Hkey].
    + intros Hin. destruct (in_set _ _ _ _ _ Hin) as [Hold|(_ & [->|(w & Hw)])].
      * now apply (Hhs k v).
      * exact Hkey.
      * now apply (Hhs k w).
Qed.

Lemma only_cors_header_names_witness :
  In "Vary" cors_header_names
  /\ (eq_ignore_case "GET" "OPTIONS" = false ->
      In "Vary" [ "Access-Control-Allow-Origin"; "Vary";
                  "Access-Control-Allow-Credentials";
                  "Access-Control-Expose-Headers" ]).
Proof.
  apply (only_cors_header_names
           {| method := "GET"; headers := [("Origin", "https://example.com")] |}
           (Some (Static {| p_allowedHeaders := None; p_allowedMethods := None;
                            p_credentials := None; p_exposedHeaders := None;
                            p_maxAge := None; p_origin := Some (OBool true) |}))
           [("Access-Control-Allow-Origin", "https://example.com"); ("Vary", "Origin")]
           "Vary" "Origin" eq_refl).
  simpl. tauto.
Defined.

(** ** Credentials and exposed headers *)


Lemma values_exposed (co : CORSOptions) (hs : Headers.t) :
  Headers.values (applyHeader (item_of (configureExposedHeaders co)) hs)
                 "Access-Control-Expose-Headers"
  = if truthy_opt (joinIfArray (exposedHeaders co))
    then option_list (joinIfArray (exposedHeaders co))
    else Headers.values hs "Access-Control-Expose-Headers".
Proof.
  unfold configureExposedHeaders.
  destruct (truthy_opt (joinIfArray (exposedHeaders co))) eqn:Hj; [|reflexivity].
  cbn [item_of]. rewrite values_applyObj. cbn [key value].
  rewrite truthy_value_of_opt, Hj.
  apply truthy_opt_Some in Hj as (s & -> & _). reflexivity.
Qed.



(** ** The two origin headers, in closed form *)



Lemma acao_get (co : CORSOptions) (req : Request) :
  truthy (origin co) = true ->
  Headers.get (applyHeaders (buildHeaders co req) Headers.new)
              "Access-Control-Allow-Origin"
  = if is_star (origin co) then Some "*"
    else match origin co with
         | OStr s => Some s
         | rule =>
             match Headers.get (headers req) "origin" with
             | Some o => if truthy_string o && isOriginAllowed o rule
                         then Some o else None
             | None => None
             end
         end.
Proof.
  intros Ht. unfold Headers.get at 1. rewrite (acao_values _ _ Ht).
  unfold configureOrigin. rewrite Ht. simpl negb. simpl orb.
  destruct (is_star (origin co)) eqn:Hstar; [reflexivity|].
  destruct (isString (origin co)) eqn:Hs.
  - destruct (origin co) as [b|s|r|items|f|n| |]; try discriminate.
    rewrite !applyHeader_items_cons, applyHeader_items_nil.
    rewrite values_applyObj_other by reflexivity. rewrite values_applyObj.
    cbn [key value truthy_value String_of_value]. simpl in Ht. now rewrite Ht.
  - rewrite !applyHeader_items_cons, applyHeader_items_nil.
    rewrite values_applyObj_other by reflexivity. rewrite values_applyObj.
    cbn [key value].
    assert (E : match origin co with
                | OStr s => Some s
                | _ => match Headers.get (headers req) "origin" with
                       | Some o => if truthy_string o && isOriginAllowed o (origin co)
                                   then Some o else None
                       | None => None
                       end
                end
                = match Headers.get (headers req) "origin" with
                  | Some o => if truthy_string o && isOriginAllowed o (origin co)
                              then Some o else None
                  | None => None
                  end)
      by (destruct (origin co); (discriminate || reflexivity)).
    transitivity (match Headers.get (headers req) "origin" with
                  | Some o => if truthy_string o && isOriginAllowed o (origin co)
                              then Some o else None
                  | None => None
                  end);
      [|destruct (origin co); (discriminate || reflexivity)].
    clear E.
    destruct (Headers.get (headers req) "origin") as [o|]; [|reflexivity].
    destruct (truthy_string o) eqn:Ho; [|reflexivity].
    destruct (isOriginAllowed o (origin co)); simpl; [now rewrite Ho | reflexivity].
Qed.

(** On the header list: where [Access-Control-Allow-Origin] comes from.  Its value is "*"
    (the rule is "*"), or the configured string, or the request's own
    non-empty [Origin] when the rule is not a string and [isOriginAllowed]
    accepts it; the header never carries anything else. *)
Lemma allow_origin_provenance_list (req : Request) (options : option Config)
    (co : CORSOptions) (h : Headers.t) (v : string) :
  resolveOptions req options = Ok co ->
  cors req options = Ok h ->
  Headers.get h "Access-Control-Allow-Origin" = Some v ->
  origin co = OStr v
  \/ (isString (origin co) = false
      /\ Headers.get (headers req) "origin" = Some v
      /\ v <> ""
      /\ isOriginAllowed v (origin co) = true).
Proof.
  intros Hr. rewrite (cors_resolved _ _ _ Hr). intros [= <-].
  destruct (truthy (origin co)) eqn:Ht;
    [|unfold buildHeaders; rewrite Ht; discriminate].
  rewrite (acao_get _ _ Ht).
  destruct (origin co) as [b|s|r|items|f|n| |] eqn:Ho;
    try discriminate Ht; cbn [is_star isString].
  2: { destruct (String.eqb_spec s "*") as [->|_]; intros [= <-]; now left. }
  all: destruct (Headers.get (headers req) "origin") as [o|]; [|discriminate].
  all: destruct (truthy_string o) eqn:Hne; [|discriminate]; cbn [andb].
  all: match goal with
       | |- (if ?c then _ else _) = _ -> _ => destruct c eqn:Hal; [|discriminate]
       end.
  all: intros [= <-]; right; apply truthy_string_true in Hne; auto.
Qed.

(** X9: the result is the empty header collection exactly when the
    resolved origin is falsy ([false], "", [0], [null], [undefined]); under
    every truthy origin at least one header is written. *)
Theorem empty_result_iff_falsy_origin (req : Request) (options : option Config)
    (co : CORSOptions) :
  resolveOptions req options = Ok co ->
  (cors req options = Ok Headers.new <-> truthy (origin co) = false).
Proof.
  intros Hr. rewrite (cors_resolved _ _ _ Hr). split.
  - intros [= H]. destruct (truthy (origin co)) eqn:Ht; [|reflexivity].
    pose proof (acao_get co req Ht) as Ha.
    pose proof (vary_values co req Ht) as Hv.
    rewrite H in Ha, Hv. destruct (is_star (origin co)); discriminate.
  - intros Ht. unfold buildHeaders. now rewrite Ht.
Qed.

Lemma empty_result_iff_falsy_origin_witness :
  let req := {| method := "OPTIONS"; headers := [("Origin", "https://example.com")] |} in
  let o := {| p_allowedHeaders := None; p_allowedMethods := None;
              p_credentials := Some true; p_exposedHeaders := None;
              p_maxAge := Some 5%Z; p_origin := Some ONull |} in
  cors req (Some (Static o)) = Ok Headers.new <-> truthy ONull = false.
Proof.
  intros req o.
  exact (empty_result_iff_falsy_origin req (Some (Static o)) (spread defaults o) eq_refl).
Defined.



(** ** The origin matcher on lists *)

(** On values, where a pattern is without the [g] and [y] flags, a list is
    the disjunction of its items: appending two lists allows what either
    allows, a nested list allows what its items would allow in place, and
    the order of the items does not matter. *)
Lemma isOriginAllowed_values_algebra (o : string) :
  (forall l1 l2,
      isOriginAllowed o (OArr (l1 ++ l2)%list)
      = isOriginAllowed o (OArr l1) || isOriginAllowed o (OArr l2))
  /\ (forall l1 l2,
         isOriginAllowed o (OArr (OArr l1 :: l2))
         = isOriginAllowed o (OArr (l1 ++ l2)%list))
  /\ (forall l1 l2, Permutation l1 l2 ->
                    isOriginAllowed o (OArr l1) = isOriginAllowed o (OArr l2)).
Proof.
  split; [|split].
  - intros l1 l2. rewrite !isOriginAllowed_array. apply existsb_app.
  - intros l1 l2. rewrite (isOriginAllowed_array o (OArr l1 :: l2)).
    cbn [existsb]. rewrite !isOriginAllowed_array. symmetry. apply existsb_app.
  - intros l1 l2 Hp. rewrite !isOriginAllowed_array.
    induction Hp as [|x l l' _ IH|x y l|l l' l'' _ IH1 _ IH2]; simpl.
    + reflexivity.
    + now rewrite IH.
    + now destruct (isOriginAllowed o x), (isOriginAllowed o y).
    + now rewrite IH1.
Qed.

(** ** Callbacks *)

(** X12: a callback is the value it returns for the request's origin.  A
    call with a config callback is the call with the options object the
    callback returns, and a call whose [origin] is a callback that returns
    something other than a function is the call with that result as
    [origin]. *)
Theorem callbacks_as_static (req : Request) :
  let reqOrigin := Headers.get (headers req) "origin" in
  (forall g : option string -> PartialOptions,
      cors req (Some (Callback g)) = cors req (Some (Static (g reqOrigin))))
  /\ (forall (o : PartialOptions) (f : option string -> CORSOrigin),
         p_origin o = Some (OFun f) ->
         isFunction (f reqOrigin) = false ->
         cors req (Some (Static o))
         = cors req (Some (Static (with_origin o (f reqOrigin))))).
Proof.
  cbv zeta. split; [reflexivity|].
  intros o f Ho Hf. unfold cors.
  rewrite (resolveOptions_dynamic req o f Ho Hf).
  rewrite (resolveOptions_static req (with_origin o _) _ eq_refl Hf).
  reflexivity.
Qed.

Lemma callbacks_as_static_witness :
  let req := {| method := "GET"; headers := [("Origin", "https://example.com")] |} in
  let f := fun o : option string =>
             match o with
             | Some "https://example.com" => OBool true
             | _ => OBool false
             end in
  let o := {| p_allowedHeaders := None; p_allowedMethods := None;
              p_credentials := None; p_exposedHeaders := None;
              p_maxAge := None; p_origin := Some (OFun f) |} in
  cors req (Some (Static o))
  = cors req (Some (Static (with_origin o (f (Headers.get (headers req) "origin"))))).
Proof.
  intros req f o.
  exact (proj2 (callbacks_as_static req) o f eq_refl eq_refl).
Defined.

(** ** Arrays and pre-joined strings *)

Lemma joinIfArray_prejoined (d : StringOrArray) (x : option StringOrArray) :
  joinIfArray (default d (prejoined <$> x)) = joinIfArray (default d x).
Proof. destruct x as [[s|l|]|]; reflexivity. Qed.

(** [buildHeaders] reads the three list options through their joined
    value only. *)
Lemma buildHeaders_joined (co co' : CORSOptions) (req : Request) :
  origin co = origin co' ->
  credentials co = credentials co' ->
  maxAge co = maxAge co' ->
  joinIfArray (allowedHeaders co) = joinIfArray (allowedHeaders co') ->
  joinIfArray (allowedMethods co) = joinIfArray (allowedMethods co') ->
  joinIfArray (exposedHeaders co) = joinIfArray (exposedHeaders co') ->
  buildHeaders co req = buildHeaders co' req.
Proof.
  intros Ho Hc Hm Hah Ham Heh.
  unfold buildHeaders, configureOrigin, configureCredentials, configureMethods,
    configureAllowedHeaders, configureMaxAge, configureExposedHeaders.
  now rewrite Ho, Hc, Hm, Hah, Ham, Heh.
Qed.

(** X13: an array option and the string it joins to are interchangeable.
    Writing [allowedMethods], [allowedHeaders] and [exposedHeaders] as
    comma-joined strings instead of arrays changes nothing in the
    outcome. *)
Theorem prejoined_options_same_result (req : Request) (o : PartialOptions) :
  cors req (Some (Static (prejoinedOptions o))) = cors req (Some (Static o)).
Proof.
  unfold cors, resolveOptions, resolveOrigin.
  change (mergeOptions (Headers.get (headers req) "origin")
            (default (Static emptyOptions) (Some (Static (prejoinedOptions o)))))
    with (spread defaults (prejoinedOptions o)).
  change (mergeOptions (Headers.get (headers req) "origin")
            (default (Static emptyOptions) (Some (Static o))))
    with (spread defaults o).
  change (origin (spread defaults (prejoinedOptions o)))
    with (origin (spread defaults o)).
  assert (Hb : forall v req',
             buildHeaders (set_origin (spread defaults (prejoinedOptions o)) v) req'
             = buildHeaders (set_origin (spread defaults o) v) req')
    by (intros v req'; apply buildHeaders_joined; try reflexivity;
        apply joinIfArray_prejoined).
  assert (Hb' : forall req',
             buildHeaders (spread defaults (prejoinedOptions o)) req'
             = buildHeaders (spread defaults o) req')
    by (intros req'; apply buildHeaders_joined; try reflexivity;
        apply joinIfArray_prejoined).
  destruct (origin (spread defaults o)) as [b|s|r|items|f|n| |];
    try (now rewrite Hb').
  destruct (isFunction (f _)); [reflexivity | now rewrite Hb].
Qed.

Example prejoined_methods :
  cors {| method := "OPTIONS"; headers := [] |}
       (Some (Static {| p_allowedHeaders := None;
                        p_allowedMethods := Some (SArr ["HEAD"; "GET"]);
                        p_credentials := None; p_exposedHeaders := None;
                        p_maxAge := None; p_origin := None |}))
  = Ok [("Access-Control-Allow-Origin", "*");
        ("Access-Control-Allow-Methods", "HEAD,GET");
        ("Content-Length", "0")].
Proof. reflexivity. Qed.

(** ** What the result depends on *)

(** The request reaches the producers through its headers only. *)
Lemma configureOrigin_headers (co : CORSOptions) (req req' : Request) :
  headers req = headers req' -> configureOrigin co req = configureOrigin co req'.
Proof. unfold configureOrigin. now intros ->. Qed.

Lemma configureAllowedHeaders_headers (co : CORSOptions) (req req' : Request) :
  headers req = headers req' ->
  configureAllowedHeaders co req = configureAllowedHeaders co req'.
Proof. unfold configureAllowedHeaders. now intros ->. Qed.

(** X14: the method matters only through being "OPTIONS" up to case.  Two
    requests with the same headers whose methods are both, or both not,
    "OPTIONS" get the same outcome: GET, POST and DELETE are treated
    alike. *)
Theorem method_matters_as_preflight_only (req req' : Request)
    (options : option Config) :
  headers req = headers req' ->
  eq_ignore_case (method req) "OPTIONS" = eq_ignore_case (method req') "OPTIONS" ->
  cors req options = cors req' options.
Proof.
  intros Hh Hm. unfold cors, resolveOptions. rewrite Hh.
  destruct (resolveOrigin _ _) as [co|e]; [|reflexivity]. f_equal. f_equal.
  unfold buildHeaders. rewrite !method_is_OPTIONS, Hm.
  now rewrite (configureOrigin_headers co req req' Hh),
              (configureAllowedHeaders_headers co req req' Hh).
Qed.

Lemma method_matters_as_preflight_only_witness :
  let hs := [("Origin", "https://example.com")] in
  cors {| method := "GET"; headers := hs |} None
  = cors {| method := "DELETE"; headers := hs |} None.
Proof.
  intros hs.
  exact (method_matters_as_preflight_only
           {| method := "GET"; headers := hs |}
           {| method := "DELETE"; headers := hs |} None eq_refl eq_refl).
Defined.

(** X15: under a string origin the request's own [Origin] header is not
    looked at.  With an options object whose [origin] is a string, two
    requests with the same method and the same
    [Access-Control-Request-Headers] header get the same result, whatever
    their other headers. *)
Theorem string_origin_ignores_request_origin (req req' : Request)
    (o : PartialOptions) (s : string) :
  p_origin o = Some (OStr s) ->
  method req = method req' ->
  Headers.get (headers req) "access-control-request-headers"
  = Headers.get (headers req') "access-control-request-headers" ->
  cors req (Some (Static o)) = cors req' (Some (Static o)).
Proof.
  intros Ho Hm Ha. unfold cors.
  rewrite !(resolveOptions_static _ o (OStr s) Ho eq_refl). f_equal.
  assert (Horigin : origin (spread defaults o) = OStr s)
    by (unfold spread; simpl; now rewrite Ho).
  unfold buildHeaders, configureOrigin, configureAllowedHeaders.
  rewrite Horigin, Hm, Ha. cbn [isString].
  now destruct (negb (truthy (OStr s)) || is_star (OStr s)).
Qed.

Lemma string_origin_ignores_request_origin_witness :
  let o := {| p_allowedHeaders := None; p_allowedMethods := None;
              p_credentials := None; p_exposedHeaders := None;
              p_maxAge := None; p_origin := Some (OStr "https://example-1.com") |} in
  cors {| method := "GET"; headers := [("Origin", "https://example.com")] |}
       (Some (Static o))
  = cors {| method := "GET"; headers := [("Origin", "https://evil.example")] |}
         (Some (Static o)).
Proof.
  intros o.
  exact (string_origin_ignores_request_origin _ _ o "https://example-1.com"
           eq_refl eq_refl eq_refl).
Defined.


Lemma aceh_get (co : CORSOptions) (req : Request) :
  Headers.get (applyHeaders (buildHeaders co req) Headers.new)
              "Access-Control-Expose-Headers"
  = if truthy (origin co) && truthy_opt (joinIfArray (exposedHeaders co))
    then joinIfArray (exposedHeaders co) else None.
Proof.
  unfold Headers.get, buildHeaders.
  destruct (truthy (origin co)); [|reflexivity].
  destruct (toUpperCase (method req) =? "OPTIONS");
    rewrite !applyHeaders_cons, applyHeaders_nil; skip_others;
    rewrite values_exposed; skip_others;
    (destruct (joinIfArray (exposedHeaders co)) as [s|]; simpl;
     [destruct (truthy_string s)|]; reflexivity).
Qed.



(** * On the platform's [Headers] *)

(** ** Header values *)

Lemma platform_set_value (h : Headers.t) (k v : string) :
  Platform.is_value v = true -> Platform.set h k v = Ok (Headers.set h k v).
Proof.
  unfold Platform.is_value, Platform.set. cbv zeta.
  intros [Hn Hv]%andb_true_iff. apply String.eqb_eq in Hn. now rewrite Hn, Hv.
Qed.

Lemma platform_append_value (h : Headers.t) (k v : string) :
  Platform.is_value v = true -> Platform.append h k v = Ok (Headers.append h k v).
Proof.
  unfold Platform.is_value, Platform.append. cbv zeta.
  intros [Hn Hv]%andb_true_iff. apply String.eqb_eq in Hn. now rewrite Hn, Hv.
Qed.

(** A string without whitespace, NUL and newlines is a header value. *)
Lemma strip_trailing_plain (s : string) :
  Forall (fun c => Platform.is_whitespace c = false) (list_ascii_of_string s) ->
  Platform.strip_trailing s = s.
Proof.
  induction s as [|c s IH]; [reflexivity|]. simpl.
  intros H. inversion H as [|? ? Hc Hs]; subst. rewrite (IH Hs), Hc.
  now destruct s.
Qed.

Lemma is_value_plain (s : string) :
  Forall (fun c => Platform.is_whitespace c = false /\ Platform.is_forbidden c = false)
         (list_ascii_of_string s) ->
  Platform.is_value s = true.
Proof.
  intros H. unfold Platform.is_value, Platform.normalize.
  assert (Hlead : Platform.strip_leading s = s).
  { destruct s as [|c s]; [reflexivity|]. simpl.
    inversion H as [|? ? [Hc _] _]; subst. now rewrite Hc. }
  rewrite Hlead, strip_trailing_plain, String.eqb_refl.
  - simpl. induction s as [|c s IH]; [reflexivity|]. simpl.
    inversion H as [|? ? [_ Hc] Hs]; subst. rewrite Hc. simpl. apply IH; [exact Hs|].
    destruct s as [|c' s]; [reflexivity|]. simpl.
    inversion Hs as [|? ? [Hc' _] _]; subst. now rewrite Hc'.
  - eapply Forall_impl; [exact H|]. now intros c [Hc _].
Qed.

Lemma digits_plain (d : Decimal.uint) :
  Forall (fun c => Platform.is_whitespace c = false /\ Platform.is_forbidden c = false)
         (list_ascii_of_string (NilEmpty.string_of_uint d)).
Proof.
  induction d; simpl; try (apply List.Forall_cons; [split; reflexivity | assumption]).
  apply List.Forall_nil.
Qed.

(** The numeral of a number is a header value. *)
Lemma number_is_value (n : Z) : Platform.is_value (String_of_number n) = true.
Proof.
  apply is_value_plain. unfold String_of_number, NilZero.string_of_int.
  destruct (Z.to_int n) as [d|d]; unfold NilZero.string_of_uint.
  - destruct d; try apply digits_plain.
    apply List.Forall_cons; [split; reflexivity | apply List.Forall_nil].
  - simpl. apply List.Forall_cons; [split; reflexivity|].
    destruct d; try apply digits_plain.
    apply List.Forall_cons; [split; reflexivity | apply List.Forall_nil].
Qed.

(** ** When the platform's checks change nothing *)

Lemma applyHeader_platform_values (item : HeaderItem) (hs : Headers.t) :
  Forall (fun h => truthy_value (value h) = true ->
                   Platform.is_value (String_of_value (value h)) = true)
         (flatten item) ->
  applyHeader_platform item hs = Ok (applyHeader item hs).
Proof.
  revert hs. induction item as [|h|l IH] using HeaderItem_nested_ind; intros hs H.
  - reflexivity.
  - simpl in *. inversion H as [|? ? Hh _]; subst.
    destruct (truthy_value (value h)); [|now rewrite andb_false_r].
    rewrite andb_true_r. specialize (Hh eq_refl).
    destruct (key h =? "Vary");
      [now apply platform_append_value | now apply platform_set_value].
  - revert hs H. induction IH as [|x l Hx _ IHl]; intros hs H; [reflexivity|].
    rewrite flatten_array_cons in H. apply List.Forall_app in H as [H1 H2].
    change (applyHeader_platform (HArr (x :: l)) hs)
      with (match applyHeader_platform x hs with
            | Ok hs' => applyHeader_platform (HArr l) hs'
            | Throw e => Throw e
            end).
    rewrite (Hx hs H1), (IHl _ H2). reflexivity.
Qed.

Lemma header_values_in (co : CORSOptions) (req : Request) (s : string) :
  header_values co req = true ->
  In s (configured_strings co req) ->
  Platform.is_value s = true.
Proof.
  unfold header_values. rewrite forallb_forall. auto.
Qed.

Lemma configured_origin (co : CORSOptions) (req : Request) (s : string) :
  origin co = OStr s -> In s (configured_strings co req).
Proof. intros H. unfold configured_strings. rewrite H. now left. Qed.

Lemma configured_request_origin (co : CORSOptions) (req : Request) (o : string) :
  Headers.get (headers req) "origin" = Some o -> In o (configured_strings co req).
Proof.
  intros H. unfold configured_strings. rewrite H, !in_app_iff. simpl. tauto.
Qed.

Lemma configured_methods (co : CORSOptions) (req : Request) (s : string) :
  joinIfArray (allowedMethods co) = Some s -> In s (configured_strings co req).
Proof.
  intros H. unfold configured_strings. rewrite H, !in_app_iff. simpl. tauto.
Qed.

Lemma configured_allowedHeaders (co : CORSOptions) (req : Request) (s : string) :
  joinIfArray (allowedHeaders co) = Some s -> In s (configured_strings co req).
Proof.
  intros H. unfold configured_strings. rewrite H, !in_app_iff. simpl. tauto.
Qed.

Lemma configured_request_headers (co : CORSOptions) (req : Request) (a : string) :
  Headers.get (headers req) "access-control-request-headers" = Some a ->
  In a (configured_strings co req).
Proof.
  intros H. unfold configured_strings. rewrite H, !in_app_iff. simpl. tauto.
Qed.

Lemma configured_exposedHeaders (co : CORSOptions) (req : Request) (s : string) :
  joinIfArray (exposedHeaders co) = Some s -> In s (configured_strings co req).
Proof.
  intros H. unfold configured_strings. rewrite H, !in_app_iff. simpl. tauto.
Qed.

(** Every value [buildHeaders] asks to write is a string of the input, one
    of five constants or the numeral of [maxAge]. *)
Lemma buildHeaders_writes (P : string -> Prop) (co : CORSOptions) (req : Request) :
  (forall s, In s (configured_strings co req) -> P s) ->
  P "*" -> P "Origin" -> P "Access-Control-Request-Headers" -> P "true" -> P "0" ->
  (forall n, P (String_of_number n)) ->
  Forall (fun h => truthy_value (value h) = true -> P (String_of_value (value h)))
         (flatten (HArr (buildHeaders co req))).
Proof.
  intros Hin Pstar Porigin Pacrh Ptrue Pzero Pnum.
  assert (Hopt : forall (k : string) (x : option string),
             (forall s, x = Some s -> In s (configured_strings co req)) ->
             truthy_value (value {| key := k; value := value_of_opt x |}) = true ->
             P (String_of_value (value {| key := k; value := value_of_opt x |}))).
  { intros k [s|] Hs; simpl; [intros _; apply Hin, Hs; reflexivity | discriminate]. }
  assert (Horigin : Forall (fun h => truthy_value (value h) = true ->
                       P (String_of_value (value h)))
                      (configureOrigin co req)).
  { unfold configureOrigin.
    destruct (negb (truthy (origin co)) || is_star (origin co)).
    - apply List.Forall_cons; [now intros _ | apply List.Forall_nil].
    - destruct (isString (origin co)).
      + apply List.Forall_cons; [|apply List.Forall_cons; [now intros _ | apply List.Forall_nil]].
        destruct (origin co) as [b|s|r|items|f|n| |] eqn:Ho; simpl; try discriminate.
        intros _. apply Hin. now apply configured_origin.
      + apply List.Forall_cons; [|apply List.Forall_cons; [now intros _ | apply List.Forall_nil]].
        destruct (Headers.get (headers req) "origin") as [o|] eqn:Hg;
          [|simpl; discriminate].
        destruct (if truthy_string o then isOriginAllowed o (origin co) else false);
          simpl; [|discriminate].
        intros _. apply Hin. now apply configured_request_origin. }
  assert (Hallowed : Forall (fun h => truthy_value (value h) = true ->
                       P (String_of_value (value h)))
                      (configureAllowedHeaders co req)).
  { unfold configureAllowedHeaders. cbv zeta. apply List.Forall_app. split.
    - destruct (_ && _); [|apply List.Forall_nil].
      apply List.Forall_cons; [now intros _ | apply List.Forall_nil].
    - destruct (truthy_opt _) eqn:Ht; [|apply List.Forall_nil].
      apply List.Forall_cons; [|apply List.Forall_nil]. apply Hopt.
      destruct (negb (truthy_opt (joinIfArray (allowedHeaders co)))); intros s Hs;
        [now apply configured_request_headers | now apply configured_allowedHeaders]. }
  assert (Hitem : forall o : option HeaderObj,
             (forall h, o = Some h -> truthy_value (value h) = true ->
                        P (String_of_value (value h))) ->
             Forall (fun h => truthy_value (value h) = true ->
                       P (String_of_value (value h)))
                    (flatten (item_of o))).
  { intros [h|] H; simpl; [|apply List.Forall_nil].
    apply List.Forall_cons; [now apply H | apply List.Forall_nil]. }
  assert (Hcred : Forall (fun h => truthy_value (value h) = true ->
                       P (String_of_value (value h)))
                    (flatten (item_of (configureCredentials co)))).
  { apply Hitem. unfold configureCredentials.
    destruct (credentials co); [|discriminate]. now intros h [= <-] _. }
  assert (Hmeth : Forall (fun h => truthy_value (value h) = true ->
                       P (String_of_value (value h)))
                    (flatten (item_of (configureMethods co)))).
  { apply Hitem. unfold configureMethods.
    destruct (truthy_opt _); [|discriminate]. intros h [= <-]. apply Hopt.
    intros s Hs. now apply configured_methods. }
  assert (Hexp : Forall (fun h => truthy_value (value h) = true ->
                       P (String_of_value (value h)))
                    (flatten (item_of (configureExposedHeaders co)))).
  { apply Hitem. unfold configureExposedHeaders.
    destruct (truthy_opt _); [|discriminate]. intros h [= <-]. apply Hopt.
    intros s Hs. now apply configured_exposedHeaders. }
  assert (Hage : Forall (fun h => truthy_value (value h) = true ->
                       P (String_of_value (value h)))
                    (flatten (item_of (configureMaxAge co)))).
  { apply Hitem. unfold configureMaxAge.
    destruct (maxAge co) as [n|]; [|discriminate]. simpl.
    destruct (truthy_string (String_of_number n)); [|discriminate].
    intros h [= <-] _. apply Pnum. }
  unfold buildHeaders.
  destruct (truthy (origin co)); [|apply List.Forall_nil].
  destruct (toUpperCase (method req) =? "OPTIONS");
    rewrite !flatten_array_cons, !flatten_items_of;
    repeat match goal with
      | |- Forall _ (_ ++ _)%list =>
          apply List.Forall_app; split;
          [ first [ assumption
                  | apply List.Forall_cons; [now intros _ | apply List.Forall_nil] ] |]
      end;
    apply List.Forall_nil.
Qed.

(** They are header values when the strings of the input are. *)
Lemma buildHeaders_values (co : CORSOptions) (req : Request) :
  header_values co req = true ->
  Forall (fun h => truthy_value (value h) = true ->
                   Platform.is_value (String_of_value (value h)) = true)
         (flatten (HArr (buildHeaders co req))).
Proof.
  intros Hv.
  apply (buildHeaders_writes (fun s => Platform.is_value s = true));
    try reflexivity; [|apply number_is_value].
  intros s. now apply header_values_in.
Qed.

(** On an input whose strings are header values, the platform's methods
    are the list operations: [cors_platform] returns what [cors] computes. *)
Lemma cors_platform_on_values (req : Request) (options : option Config)
    (co : CORSOptions) :
  resolveOptions req options = Ok co ->
  header_values co req = true ->
  cors_platform req options = cors req options.
Proof.
  intros Hr Hv. unfold cors_platform, cors. rewrite Hr.
  apply (applyHeader_platform_values (HArr (buildHeaders co req))).
  now apply buildHeaders_values.
Qed.

(** ** When the platform's checks let a call through *)

Lemma is_value_accepted (s : string) :
  Platform.is_value s = true -> Platform.accepted s = true.
Proof.
  unfold Platform.is_value, Platform.accepted.
  intros [Hn Hv]%andb_true_iff. apply String.eqb_eq in Hn. now rewrite Hn.
Qed.



(** What the platform does to values that are not header values. *)
Example whitespace_origin_is_trimmed :
  cors_platform {| method := "GET"; headers := [("Origin", "https://example.com")] |}
    (Some (Static {| p_allowedHeaders := None; p_allowedMethods := None;
                     p_credentials := None; p_exposedHeaders := None;
                     p_maxAge := None; p_origin := Some (OStr " ") |}))
  = Ok [("Access-Control-Allow-Origin", ""); ("Vary", "Origin")].
Proof. reflexivity. Qed.

Example padded_allowed_headers_are_trimmed :
  cors_platform {| method := "OPTIONS"; headers := [] |}
    (Some (Static {| p_allowedHeaders := Some (SStr " X-A ");
                     p_allowedMethods := Some (SStr " ");
                     p_credentials := None; p_exposedHeaders := None;
                     p_maxAge := None; p_origin := None |}))
  = Ok [("Access-Control-Allow-Origin", "*");
        ("Access-Control-Allow-Methods", "");
        ("Access-Control-Allow-Headers", "X-A");
        ("Content-Length", "0")].
Proof. reflexivity. Qed.

Example newline_in_exposed_headers_throws :
  cors_platform {| method := "GET"; headers := [] |}
    (Some (Static {| p_allowedHeaders := None; p_allowedMethods := None;
                     p_credentials := None;
                     p_exposedHeaders := Some (SStr ("X-A" ++ String "010" "X-B"));
                     p_maxAge := None; p_origin := None |}))
  = Throw Platform.invalid_value.
Proof. reflexivity. Qed.

(** ** Reflected origin *)

(** C3, as stated, fails for a request whose [Origin] header is the empty
    string: the rule [true] allows every origin, yet nothing is reflected. *)
Lemma reflect_empty_origin_counterexample :
  ~ (forall (req : Request) (options : option Config) (co : CORSOptions) (o : string),
        resolveOptions req options = Ok co ->
        Headers.get (headers req) "origin" = Some o ->
        is_rule (origin co) = true -> isString (origin co) = false ->
        exists h, cors_platform req options = Ok h
                  /\ (Headers.get h "Access-Control-Allow-Origin" = Some o
                      <-> Allows o (origin co))).
Proof.
  intros H.
  destruct (H {| method := "GET"; headers := [("Origin", "")] |}
              (Some (Static {| p_allowedHeaders := None; p_allowedMethods := None;
                               p_credentials := None; p_exposedHeaders := None;
                               p_maxAge := None; p_origin := Some (OBool true) |}))
              _ "" eq_refl eq_refl eq_refl eq_refl) as (h & Hc & Hiff).
  injection Hc as <-. destruct Hiff as [_ Hiff].
  specialize (Hiff (allows_true "")). discriminate Hiff.
Qed.

(** C3 (amended): for a request with a non-empty [Origin] header [o] and a
    resolved origin rule that is [true], a pattern without the [g] and [y]
    flags or a list of such rules and strings, the strings of the input
    being header values, the result has [Access-Control-Allow-Origin] equal
    to [o] exactly when the rule allows [o], has no such header otherwise,
    and has the [Vary] value [Origin] either way. *)
Theorem reflect_origin_iff_allowed (req : Request) (options : option Config)
    (co : CORSOptions) (o : string) :
  resolveOptions req options = Ok co ->
  header_values co req = true ->
  Headers.get (headers req) "origin" = Some o ->
  o <> "" ->
  is_rule (origin co) = true -> isString (origin co) = false ->
  exists h, cors_platform req options = Ok h
            /\ (Headers.get h "Access-Control-Allow-Origin" = Some o
                <-> Allows o (origin co))
            /\ (~ Allows o (origin co)
                -> Headers.get h "Access-Control-Allow-Origin" = None)
            /\ In "Origin" (Headers.values h "Vary").
Proof.
  intros Hr Hv Hg Ho Hrule Hs. rewrite (cors_platform_on_values _ _ _ Hr Hv).
  now apply (reflect_origin_iff_allowed_list req options co o).
Qed.

Lemma reflect_origin_iff_allowed_witness :
  let req := {| method := "GET"; headers := [("Origin", "https://example.com")] |} in
  let rule := OArr [ORegExp {| test := String.prefix "http://" |};
                    OStr "https://example.com"] in
  let o := {| p_allowedHeaders := None; p_allowedMethods := None;
              p_credentials := None; p_exposedHeaders := None;
              p_maxAge := None; p_origin := Some rule |} in
  exists h, cors_platform req (Some (Static o)) = Ok h
            /\ (Headers.get h "Access-Control-Allow-Origin" = Some "https://example.com"
                <-> Allows "https://example.com" rule)
            /\ (~ Allows "https://example.com" rule
                -> Headers.get h "Access-Control-Allow-Origin" = None)
            /\ In "Origin" (Headers.values h "Vary").
Proof.
  intros req rule o.
  exact (reflect_origin_iff_allowed req (Some (Static o)) (spread defaults o)
           "https://example.com" eq_refl eq_refl eq_refl ltac:(discriminate)
           eq_refl eq_refl).
Defined.

(** ** Fixed origin *)

(** C4, as stated, fails for the empty string: it is a string other than
    "*", and it switches CORS off. *)
Lemma fixed_empty_origin_counterexample :
  ~ (forall (req : Request) (options : option Config) (co : CORSOptions) (s : string),
        resolveOptions req options = Ok co ->
        origin co = OStr s -> s <> "*" ->
        exists h, cors_platform req options = Ok h
                  /\ Headers.get h "Access-Control-Allow-Origin" = Some s
                  /\ In "Origin" (Headers.values h "Vary")).
Proof.
  intros H.
  destruct (H {| method := "GET"; headers := [("Origin", "https://example.com")] |}
              (Some (Static {| p_allowedHeaders := None; p_allowedMethods := None;
                               p_credentials := None; p_exposedHeaders := None;
                               p_maxAge := None; p_origin := Some (OStr "") |}))
              _ "" eq_refl eq_refl ltac:(discriminate)) as (h & Hc & Hg & _).
  injection Hc as <-. discriminate Hg.
Qed.

(** C4 (amended): when the resolved origin is a non-empty string [s] and
    the strings of the input, [s] among them, are header values, the result
    has [Access-Control-Allow-Origin] equal to [s] whatever the request's
    own origin; it has the [Vary] value [Origin] when [s] is not "*", and
    no [Vary] value [Origin] when [s] is "*" (the wildcard branch). *)
Theorem fixed_origin (req : Request) (options : option Config) (co : CORSOptions)
    (s : string) :
  resolveOptions req options = Ok co ->
  header_values co req = true ->
  origin co = OStr s ->
  s <> "" ->
  exists h, cors_platform req options = Ok h
            /\ Headers.get h "Access-Control-Allow-Origin" = Some s
            /\ (s <> "*" -> In "Origin" (Headers.values h "Vary"))
            /\ (s = "*" -> ~ In "Origin" (Headers.values h "Vary")).
Proof.
  intros Hr Hv Ho Hs. rewrite (cors_platform_on_values _ _ _ Hr Hv).
  now apply (fixed_origin_list req options co s).
Qed.

Lemma fixed_origin_witness :
  let req := {| method := "GET"; headers := [("Origin", "https://example.com")] |} in
  let o := {| p_allowedHeaders := None; p_allowedMethods := None;
              p_credentials := None; p_exposedHeaders := None;
              p_maxAge := None; p_origin := Some (OStr "https://example-1.com") |} in
  exists h, cors_platform req (Some (Static o)) = Ok h
            /\ Headers.get h "Access-Control-Allow-Origin" = Some "https://example-1.com"
            /\ ("https://example-1.com" <> "*" -> In "Origin" (Headers.values h "Vary"))
            /\ ("https://example-1.com" = "*" -> ~ In "Origin" (Headers.values h "Vary")).
Proof.
  intros req o.
  exact (fixed_origin req (Some (Static o)) (spread defaults o)
           "https://example-1.com" eq_refl eq_refl eq_refl ltac:(discriminate)).
Defined.

(** ** Exceptions *)



(** ** Preflight headers *)

(** C7, as stated, fails for an [allowedHeaders] that is set but empty: the
    requested headers are reflected all the same. *)
Lemma empty_allowed_headers_counterexample :
  ~ (forall (req : Request) (options : option Config) (co : CORSOptions)
            (l : list string),
        resolveOptions req options = Ok co ->
        eq_ignore_case (method req) "OPTIONS" = true ->
        truthy (origin co) = true ->
        allowedHeaders co = SArr l ->
        exists h, cors_platform req options = Ok h
                  /\ Headers.get h "Access-Control-Allow-Headers" = Some (join "," l)
                  /\ ~ In "Access-Control-Request-Headers" (Headers.values h "Vary")).
Proof.
  intros H.
  destruct (H {| method := "OPTIONS";
                 headers := [("Origin", "https://example.com");
                             ("Access-Control-Request-Headers", "X-Header-1,X-Header-2")] |}
              (Some (Static {| p_allowedHeaders := Some (SArr []);
                               p_allowedMethods := None;
                               p_credentials := None; p_exposedHeaders := None;
                               p_maxAge := None;
                               p_origin := Some (OStr "https://example-1.com") |}))
              _ [] eq_refl eq_refl eq_refl eq_refl) as (h & Hc & Hg & _).
  injection Hc as <-. discriminate Hg.
Qed.

(** C7 (amended): on an OPTIONS request under an enabled origin rule, the
    strings of the input being header values, an [allowedHeaders] whose
    joined value [s] is non-empty gives [Access-Control-Allow-Headers: s]
    and no [Vary] value [Access-Control-Request-Headers]; an
    [allowedHeaders] that is unset or joins to the empty string reflects a
    non-empty [Access-Control-Request-Headers] request header, with that
    [Vary] value, and emits neither when the request header is absent. *)
Theorem allowed_headers (req : Request) (options : option Config) (co : CORSOptions) :
  resolveOptions req options = Ok co ->
  header_values co req = true ->
  eq_ignore_case (method req) "OPTIONS" = true ->
  truthy (origin co) = true ->
  exists h,
    cors_platform req options = Ok h
    /\ (forall s, joinIfArray (allowedHeaders co) = Some s -> s <> "" ->
          Headers.get h "Access-Control-Allow-Headers" = Some s
          /\ ~ In "Access-Control-Request-Headers" (Headers.values h "Vary"))
    /\ (joinIfArray (allowedHeaders co) = None
        \/ joinIfArray (allowedHeaders co) = Some "" ->
        (forall a, Headers.get (headers req) "access-control-request-headers" = Some a ->
                   a <> "" ->
                   Headers.get h "Access-Control-Allow-Headers" = Some a
                   /\ In "Access-Control-Request-Headers" (Headers.values h "Vary"))
        /\ (Headers.get (headers req) "access-control-request-headers" = None ->
            Headers.get h "Access-Control-Allow-Headers" = None
            /\ ~ In "Access-Control-Request-Headers" (Headers.values h "Vary"))).
Proof.
  intros Hr Hv Hm Ht. rewrite (cors_platform_on_values _ _ _ Hr Hv).
  now apply (allowed_headers_list req options co).
Qed.

Lemma allowed_headers_witness :
  let req := {| method := "OPTIONS";
                headers := [("Origin", "https://example.com");
                            ("Access-Control-Request-Headers", "X-Header-1,X-Header-2")] |} in
  let o := {| p_allowedHeaders := Some (SArr ["FIZZ"; "buzz"]); p_allowedMethods := None;
              p_credentials := None; p_exposedHeaders := None;
              p_maxAge := None; p_origin := Some (OBool true) |} in
  exists h, cors_platform req (Some (Static o)) = Ok h
            /\ Headers.get h "Access-Control-Allow-Headers" = Some "FIZZ,buzz"
            /\ ~ In "Access-Control-Request-Headers" (Headers.values h "Vary").
Proof.
  intros req o.
  destruct (allowed_headers req (Some (Static o)) (spread defaults o)
              eq_refl eq_refl eq_refl eq_refl) as (h & Hc & Hset & _).
  exists h. split; [exact Hc|].
  exact (Hset "FIZZ,buzz" eq_refl ltac:(discriminate)).
Defined.




(** ** Further properties on the platform's [Headers] *)

(** X2: when the strings of the input are header values, no header is
    written with an empty value: a directive whose value is [false],
    [null], [undefined] or the empty string is skipped, and [true] is
    written as "true". *)
Theorem no_empty_header_value (req : Request) (options : option Config)
    (co : CORSOptions) :
  resolveOptions req options = Ok co ->
  header_values co req = true ->
  exists h, cors_platform req options = Ok h
            /\ Forall (fun e => snd e <> "") h.
Proof.
  intros Hr Hv. rewrite (cors_platform_on_values _ _ _ Hr Hv).
  unfold cors. rewrite Hr. eexists. split; [reflexivity|].
  apply (proj1 no_empty_header_value_list). apply List.Forall_nil.
Qed.

Lemma no_empty_header_value_witness :
  let req := {| method := "OPTIONS"; headers := [("Origin", "")] |} in
  let o := {| p_allowedHeaders := Some (SArr []); p_allowedMethods := Some (SStr "");
              p_credentials := Some false; p_exposedHeaders := Some (SArr [""]);
              p_maxAge := None; p_origin := Some (OBool true) |} in
  exists h, cors_platform req (Some (Static o)) = Ok h
            /\ Forall (fun e => snd e <> "") h.
Proof.
  intros req o.
  exact (no_empty_header_value req (Some (Static o)) (spread defaults o)
           eq_refl eq_refl).
Defined.

(** X6: when the strings of the input are header values,
    [Access-Control-Expose-Headers] is in the result, on every method,
    exactly when the origin rule is enabled and [exposedHeaders] (an array
    joined with commas, or the string itself) is non-empty; its value is
    that string. *)
Theorem exposed_headers (req : Request) (options : option Config)
    (co : CORSOptions) :
  resolveOptions req options = Ok co ->
  header_values co req = true ->
  exists h, cors_platform req options = Ok h
            /\ Headers.get h "Access-Control-Expose-Headers"
               = if truthy (origin co) && truthy_opt (joinIfArray (exposedHeaders co))
                 then joinIfArray (exposedHeaders co) else None.
Proof.
  intros Hr Hv. rewrite (cors_platform_on_values _ _ _ Hr Hv).
  rewrite (cors_resolved _ _ _ Hr). eexists. split; [reflexivity|].
  apply aceh_get.
Qed.

Lemma exposed_headers_witness :
  let req := {| method := "GET"; headers := [("Origin", "https://example.com")] |} in
  let o := {| p_allowedHeaders := None; p_allowedMethods := None;
              p_credentials := None;
              p_exposedHeaders := Some (SArr ["custom-header-1"; "custom-header-2"]);
              p_maxAge := None; p_origin := None |} in
  exists h, cors_platform req (Some (Static o)) = Ok h
            /\ Headers.get h "Access-Control-Expose-Headers"
               = Some "custom-header-1,custom-header-2".
Proof.
  intros req o.
  exact (exposed_headers req (Some (Static o)) (spread defaults o) eq_refl eq_refl).
Defined.

(** X8: where [Access-Control-Allow-Origin] comes from, when the strings
    of the input are header values.  Its value is the configured string
    ("*" included) or, when the rule is not a string, the request's own
    non-empty [Origin] that [isOriginAllowed] accepts (the patterns being
    without the [g] and [y] flags); the header never carries anything
    else. *)
Theorem allow_origin_provenance (req : Request) (options : option Config)
    (co : CORSOptions) (h : Headers.t) (v : string) :
  resolveOptions req options = Ok co ->
  header_values co req = true ->
  cors_platform req options = Ok h ->
  Headers.get h "Access-Control-Allow-Origin" = Some v ->
  origin co = OStr v
  \/ (isString (origin co) = false
      /\ Headers.get (headers req) "origin" = Some v
      /\ v <> ""
      /\ isOriginAllowed v (origin co) = true).
Proof.
  intros Hr Hv. rewrite (cors_platform_on_values _ _ _ Hr Hv).
  now apply (allow_origin_provenance_list req options co h v).
Qed.

Lemma allow_origin_provenance_witness :
  let req := {| method := "GET"; headers := [("Origin", "https://example.com")] |} in
  let rule := ORegExp {| test := String.prefix "https://" |} in
  rule = OStr "https://example.com"
  \/ (isString rule = false
      /\ Headers.get (headers req) "origin" = Some "https://example.com"
      /\ "https://example.com" <> ""
      /\ isOriginAllowed "https://example.com" rule = true).
Proof.
  intros req rule.
  pose (o := {| p_allowedHeaders := None; p_allowedMethods := None;
                p_credentials := None; p_exposedHeaders := None;
                p_maxAge := None; p_origin := Some rule |}).
  exact (allow_origin_provenance req (Some (Static o)) (spread defaults o)
           [("Access-Control-Allow-Origin", "https://example.com"); ("Vary", "Origin")]
           "https://example.com" eq_refl eq_refl eq_refl eq_refl).
Defined.

(** * The store and the values *)

(** ** Origin rules of the store as values *)

Lemma truthy_originValue (s : store) (v : OriginRef) :
  truthy (originValue s v) = truthyRef v.
Proof. destruct v; simpl; try reflexivity. now destruct (regexpAt s l). Qed.

Lemma isFunction_originValue (s : store) (v : OriginRef) :
  isFunction (originValue s v) = isFunctionRef v.
Proof. destruct v; simpl; try reflexivity. now destruct (regexpAt s l). Qed.

Lemma isString_originValue (s : store) (v : OriginRef) :
  isString (originValue s v) = isStringRef v.
Proof. destruct v; simpl; try reflexivity. now destruct (regexpAt s l). Qed.

Lemma is_star_originValue (s : store) (v : OriginRef) :
  is_star (originValue s v) = is_starRef v.
Proof. destruct v; simpl; try reflexivity. now destruct (regexpAt s l). Qed.

Lemma regexpAt_insert_options (s : store) (l l' : loc) (fr : bool) (p : StoredOptions) :
  regexpAt s l = None ->
  regexpAt (<[l := OptionsObject fr p]> s) l' = regexpAt s l'.
Proof.
  intros H. destruct (decide (l' = l)) as [->|Hne].
  - rewrite H. unfold regexpAt. now rewrite lookup_insert_eq.
  - unfold regexpAt. now rewrite lookup_insert_ne by congruence.
Qed.

Lemma regexpAt_unallocated (s : store) (l : loc) :
  s !! l = None -> regexpAt s l = None.
Proof. intros H. unfold regexpAt. now rewrite H. Qed.

Lemma unflagged_same (s s' : store) :
  unflagged s -> (forall l, regexpAt s' l = regexpAt s l) -> unflagged s'.
Proof.
  intros Hun Hsame l fr p li E.
  assert (H : regexpAt s l = Some p) by (rewrite <- Hsame; unfold regexpAt; now rewrite E).
  unfold regexpAt in H. destruct (s !! l) as [[fr' q|fr' q li']|] eqn:E'; try discriminate.
  injection H as ->. exact (Hun _ _ _ _ E').
Qed.

(** On a store without flagged patterns the matcher is the pure one, and
    writes nothing. *)
Lemma isOriginAllowed_store_values (s s' : store) (o : string) (v : OriginRef) :
  unflagged s' ->
  (forall l, regexpAt s' l = regexpAt s l) ->
  isOriginAllowed_store o v s' = (Ok (isOriginAllowed o (originValue s v)), s').
Proof.
  intros Hun Hsame.
  induction v as [b|str|l|items IH|f|n| |] using OriginRef_nested_ind;
    try reflexivity.
  - simpl. rewrite <- Hsame. unfold test_store, regexpAt.
    destruct (s' !! l) as [[fr p|fr p li]|] eqn:E; try reflexivity.
    pose proof (Hun _ _ _ _ E) as Hf.
    rewrite (regexp_test_unflagged p li o Hf), Hf. reflexivity.
  - induction IH as [|x items Hx _ IHitems]; [reflexivity|].
    change (isOriginAllowed_store o (RArr (x :: items)) s')
      with (bind (isOriginAllowed_store o x)
                 (fun b => if b then ret true
                           else isOriginAllowed_store o (RArr items)) s').
    change (isOriginAllowed o (originValue s (RArr (x :: items))))
      with (if isOriginAllowed o (originValue s x) then true
            else isOriginAllowed o (originValue s (RArr items))).
    unfold bind. rewrite Hx.
    destruct (isOriginAllowed o (originValue s x)); [reflexivity | exact IHitems].
Qed.

Lemma configureOrigin_store_values (s s' : store) (v : OriginRef) (req : Request)
    (co : CORSOptions) :
  unflagged s' ->
  (forall l, regexpAt s' l = regexpAt s l) ->
  origin co = originValue s v ->
  configureOrigin_store v req s' = (Ok (configureOrigin co req), s').
Proof.
  intros Hun Hsame Ho. unfold configureOrigin_store, configureOrigin. cbv zeta.
  rewrite Ho, truthy_originValue, is_star_originValue, isString_originValue.
  destruct (negb (truthyRef v) || is_starRef v); [reflexivity|].
  destruct (isStringRef v) eqn:Hs.
  - destruct v; try discriminate Hs. reflexivity.
  - unfold bind.
    destruct (Headers.get (headers req) "origin") as [o|]; [|reflexivity].
    destruct (truthy_string o); [|reflexivity].
    now rewrite (isOriginAllowed_store_values s s' o v Hun Hsame).
Qed.

Lemma workingValue_spread (s : store) (p : StoredOptions) :
  workingValue s (spreadStored defaultsStored p) = spread defaults (optionsValue s p).
Proof. destruct p as [[?|] [?|] [?|] [?|] [?|] [?|]]; reflexivity. Qed.

Lemma buildHeaders_working (s : store) (p : StoredOptions) (req : Request) :
  buildHeaders (workingValue s p) req
  = if truthyRef (originOf p)
    then headersArr_store (configureOrigin (workingValue s p) req) (otherFields p) req
    else [].
Proof.
  unfold buildHeaders. cbv zeta.
  change (origin (workingValue s p)) with (originValue s (originOf p)).
  rewrite truthy_originValue. reflexivity.
Qed.

(** ** A call on a store without flagged patterns *)

Lemma bind_alloc {B} (p : StoredOptions) (k : loc -> M B) (s : store) :
  bind (alloc p) k s
  = k (fresh (dom s)) (<[fresh (dom s) := OptionsObject false p]> s).
Proof. reflexivity. Qed.

Lemma bind_ownProps {B} (l : loc) (k : StoredOptions -> M B) (s : store) :
  bind (ownProps l) k s = k (propsAt s l) s.
Proof.
  unfold bind, ownProps, propsAt. now destruct (s !! l) as [[fr p|fr p li]|].
Qed.

Lemma propsAt_insert (s : store) (l : loc) (fr : bool) (p : StoredOptions) :
  propsAt (<[l := OptionsObject fr p]> s) l = p.
Proof. unfold propsAt. now rewrite lookup_insert_eq. Qed.

(** The first working copy holds the defaults, so reading the options
    after it was allocated spreads the same properties over them. *)
Lemma spread_over_defaults (s : store) (t : loc) :
  spreadStored defaultsStored
    (propsAt (<[fresh (dom s) := OptionsObject false defaultsStored]> s) t)
  = spreadStored defaultsStored (propsAt s t).
Proof.
  destruct (decide (t = fresh (dom s))) as [->|Hne].
  - rewrite propsAt_insert. unfold propsAt. now rewrite fresh_unallocated.
  - unfold propsAt. now rewrite lookup_insert_ne by congruence.
Qed.

(** Lines 167-188 on a store whose patterns are those of [s], unflagged. *)
Lemma headers_store_values (s s' : store) (l : loc) (req : Request) :
  unflagged s' ->
  (forall l', regexpAt s' l' = regexpAt s l') ->
  (bind (ownProps l)
     (fun final =>
        bind (if truthyRef (originOf final)
              then bind (configureOrigin_store (originOf final) req)
                     (fun originHeaders =>
                        ret (headersArr_store originHeaders (otherFields final) req))
              else ret [])
          (fun headersArr => lift (applyHeaders_platform headersArr Headers.new)))
     s').1
  = applyHeaders_platform (buildHeaders (workingValue s (propsAt s' l)) req) Headers.new.
Proof.
  intros Hun Hsame. rewrite bind_ownProps, buildHeaders_working.
  destruct (truthyRef (originOf (propsAt s' l))); [|reflexivity].
  unfold bind.
  now rewrite (configureOrigin_store_values s s' _ req
                 (workingValue s (propsAt s' l)) Hun Hsame eq_refl).
Qed.

Lemma cors_store_with_values (req : Request) (c : ConfigRef) (s : store) :
  unflagged s ->
  (cors_store_with req c s).1 = cors_platform req (Some (configValue s c)).
Proof.
  intros Hun.
  set (ro := Headers.get (headers req) "origin").
  set (t := match c with RefObj l => l | RefFun f => f ro end).
  set (merged := spreadStored defaultsStored (propsAt s t)).
  assert (Hres : resolveOptions req (Some (configValue s c))
                 = resolveOrigin ro (workingValue s merged)).
  { unfold merged. rewrite workingValue_spread. now destruct c. }
  unfold cors_platform. rewrite Hres. clear Hres.
  unfold cors_store_with. cbv zeta. fold ro.
  rewrite bind_alloc. cbv beta.
  set (l1 := fresh (dom s)).
  rewrite bind_ownProps, propsAt_insert.
  replace (match c with RefFun f => ownProps (f ro) | RefObj l => ownProps l end)
    with (ownProps t) by now destruct c.
  rewrite bind_ownProps, bind_alloc. cbv beta.
  unfold l1. rewrite spread_over_defaults. fold l1. fold merged.
  set (s1 := <[l1 := OptionsObject false defaultsStored]> s).
  set (l2 := fresh (dom s1)).
  rewrite bind_ownProps, propsAt_insert.
  assert (Hsame1 : forall l, regexpAt s1 l = regexpAt s l).
  { intros l. apply regexpAt_insert_options, regexpAt_unallocated, fresh_unallocated. }
  assert (Hsame2 : forall q l, regexpAt (<[l2 := OptionsObject false q]> s1) l
                               = regexpAt s l).
  { intros q l. rewrite <- Hsame1.
    apply regexpAt_insert_options, regexpAt_unallocated, fresh_unallocated. }
  assert (Htail : forall q,
             (bind (ownProps l2)
                (fun final =>
                   bind (if truthyRef (originOf final)
                         then bind (configureOrigin_store (originOf final) req)
                                (fun originHeaders =>
                                   ret (headersArr_store originHeaders
                                          (otherFields final) req))
                         else ret [])
                     (fun headersArr =>
                        lift (applyHeaders_platform headersArr Headers.new)))
                (<[l2 := OptionsObject false q]> s1)).1
             = applyHeaders_platform (buildHeaders (workingValue s q) req) Headers.new).
  { intros q.
    rewrite (headers_store_values s _ l2 req
               (unflagged_same s _ Hun (Hsame2 q)) (Hsame2 q)).
    now rewrite propsAt_insert. }
  unfold resolveOrigin.
  change (origin (workingValue s merged)) with (originValue s (originOf merged)).
  destruct (originOf merged) as [b|str|l|items|f|n| |] eqn:Ho;
    try (exact (Htail merged)).
  - cbn [originValue]. destruct (regexpAt s l); exact (Htail merged).
  - cbn [originValue]. cbv zeta. rewrite isFunction_originValue.
    destruct (isFunctionRef (f ro)); [reflexivity|].
    unfold bind at 1, assignOrigin. rewrite lookup_insert_eq, insert_insert_eq.
    exact (Htail (with_originRef merged (f ro))).
Qed.

Lemma cors_store_respects (req : Request) (options : option ConfigRef) (s : store) :
  respects s (cors_store req options s).
Proof.
  destruct options as [c|]; simpl.
  - apply cors_store_with_respects, kept_refl.
  - apply respects_bind; [apply alloc_respects, kept_refl|].
    intros l0 s0' _ Hk. now apply cors_store_with_respects.
Qed.

(** X17: on a store none of whose regular expressions has the [g] or the
    [y] flag, a call over the store returns what [cors_platform] returns
    on the configuration read as a value, and leaves every object of the
    store as it was, [lastIndex] included. *)
Theorem cors_store_unflagged (req : Request) (options : option ConfigRef)
    (s : store) :
  unflagged s ->
  (cors_store req options s).1 = cors_platform req (configValue s <$> options)
  /\ forall l obj, s !! l = Some obj -> (cors_store req options s).2 !! l = Some obj.
Proof.
  intros Hun. split.
  - destruct options as [c|]; [now apply cors_store_with_values|].
    unfold cors_store. rewrite bind_alloc.
    rewrite cors_store_with_values.
    + unfold configValue. now rewrite propsAt_insert.
    + apply (unflagged_same s); [exact Hun|]. intros l.
      apply regexpAt_insert_options, regexpAt_unallocated, fresh_unallocated.
  - destruct (cors_store_respects req options s) as [[Ho Hr] _].
    intros l [fr p|fr p li] E; [now apply Ho|].
    destruct (Hr _ _ _ _ E) as (li' & E' & Hli). rewrite E'.
    now rewrite (Hli (or_introl (Hun _ _ _ _ E))).
Qed.

Lemma cors_store_unflagged_witness :
  let https := {| matchAt := fun s i => if (i =? 0)%nat && String.prefix "https://" s
                                        then Some 8%nat else None;
                  global := false; sticky := false |} in
  let config := {| s_allowedHeaders := None; s_allowedMethods := None;
                   s_credentials := None; s_exposedHeaders := None;
                   s_maxAge := None;
                   s_origin := Some (RArr [RObject 2%positive; RObject 2%positive]) |} in
  let s : store := <[2%positive := RegExpObject false https 8]>
                     {[ 1%positive := OptionsObject true config ]} in
  let req := {| method := "GET"; headers := [("Origin", "https://example.com")] |} in
  (cors_store req (Some (RefObj 1%positive)) s).1
  = cors_platform req (configValue s <$> Some (RefObj 1%positive))
  /\ forall l obj, s !! l = Some obj ->
                   (cors_store req (Some (RefObj 1%positive)) s).2 !! l = Some obj.
Proof.
  intros https config s req. apply cors_store_unflagged.
  intros l fr p li H.
  apply lookup_insert_Some in H as [[_ H]|[_ H]].
  - injection H as _ <- _. reflexivity.
  - apply lookup_singleton_Some in H as [_ H]. discriminate H.
Defined.

(** ** The origin matcher on lists, over the store *)

(** X11: on a store none of whose regular expressions has the [g] or the
    [y] flag, a list is the disjunction of its items.  The matcher answers
    and writes nothing; appending two lists allows what either allows, a
    nested list allows what its items would allow in place, and the order
    of the items does not matter.  With the [g] flag this fails: see
    [global_pattern_twice_in_a_list]. *)
Theorem isOriginAllowed_list_algebra (s : store) (o : string) :
  unflagged s ->
  (forall l1 l2, exists b1 b2,
      isOriginAllowed_store o (RArr l1) s = (Ok b1, s)
      /\ isOriginAllowed_store o (RArr l2) s = (Ok b2, s)
      /\ isOriginAllowed_store o (RArr (l1 ++ l2)%list) s = (Ok (b1 || b2), s))
  /\ (forall l1 l2,
         isOriginAllowed_store o (RArr (RArr l1 :: l2)) s
         = isOriginAllowed_store o (RArr (l1 ++ l2)%list) s)
  /\ (forall l1 l2, Permutation l1 l2 ->
                    isOriginAllowed_store o (RArr l1) s
                    = isOriginAllowed_store o (RArr l2) s).
Proof.
  intros Hun.
  assert (Hv : forall v, isOriginAllowed_store o v s
                         = (Ok (isOriginAllowed o (originValue s v)), s))
    by (intros v; now apply isOriginAllowed_store_values).
  destruct (isOriginAllowed_values_algebra o) as (Happ & Hnest & Hperm).
  split; [|split].
  - intros l1 l2. eexists _, _. split; [apply Hv|]. split; [apply Hv|].
    rewrite Hv. cbn [originValue]. now rewrite List.map_app, Happ.
  - intros l1 l2. rewrite !Hv. cbn [originValue].
    change (List.map (originValue s) (RArr l1 :: l2))
      with (OArr (List.map (originValue s) l1) :: List.map (originValue s) l2).
    now rewrite Hnest, List.map_app.
  - intros l1 l2 Hp. rewrite !Hv. cbn [originValue].
    now rewrite (Hperm _ _ (Permutation_map (originValue s) Hp)).
Qed.

Lemma isOriginAllowed_list_algebra_witness :
  let https := {| matchAt := fun s i => if (i =? 0)%nat && String.prefix "https://" s
                                        then Some 8%nat else None;
                  global := false; sticky := false |} in
  let s : store := {[ 2%positive := RegExpObject false https 8 ]} in
  let o := "https://example.com" in
  exists b1 b2,
    isOriginAllowed_store o (RArr [RStr "http://example.com"]) s = (Ok b1, s)
    /\ isOriginAllowed_store o (RArr [RObject 2%positive]) s = (Ok b2, s)
    /\ isOriginAllowed_store o (RArr [RStr "http://example.com"; RObject 2%positive]) s
       = (Ok (b1 || b2), s).
Proof.
  intros https s o.
  refine (proj1 (isOriginAllowed_list_algebra s o _)
            [RStr "http://example.com"] [RObject 2%positive]).
  intros l fr p li H. apply lookup_singleton_Some in H as [_ H].
  injection H as _ <- _. reflexivity.
Defined.

(** ** What the platform's [Headers] does to a result *)

Lemma remove_trimmed (h : Headers.t) (k : string) :
  Headers.remove (trimmed h) k = trimmed (Headers.remove h k).
Proof.
  induction h as [|[k' v'] h IH]; [reflexivity|]. simpl.
  destruct (Headers.same_name k' k); simpl; now rewrite IH.
Qed.

Lemma set_trimmed (h : Headers.t) (k v : string) :
  Headers.set (trimmed h) k (Platform.normalize v) = trimmed (Headers.set h k v).
Proof.
  induction h as [|[k' v'] h IH]; [reflexivity|]. simpl.
  destruct (Headers.same_name k' k); simpl.
  - now rewrite remove_trimmed.
  - now rewrite IH.
Qed.

Lemma append_trimmed (h : Headers.t) (k v : string) :
  Headers.append (trimmed h) k (Platform.normalize v) = trimmed (Headers.append h k v).
Proof. unfold Headers.append, trimmed. now rewrite List.map_app. Qed.

Lemma applyHeader_platform_trimmed (item : HeaderItem) (hs : Headers.t) :
  Forall (fun h => truthy_value (value h) = true ->
                   Platform.accepted (String_of_value (value h)) = true)
         (flatten item) ->
  applyHeader_platform item (trimmed hs) = Ok (trimmed (applyHeader item hs)).
Proof.
  revert hs. induction item as [|h|l IH] using HeaderItem_nested_ind; intros hs H.
  - reflexivity.
  - simpl in *. inversion H as [|? ? Hh _]; subst.
    unfold Platform.append, Platform.set, Platform.accepted in *. cbv zeta.
    destruct (truthy_value (value h)); [|now rewrite andb_false_r].
    rewrite (Hh eq_refl), andb_true_r.
    destruct (key h =? "Vary"); [now rewrite append_trimmed | now rewrite set_trimmed].
  - revert hs H. induction IH as [|x l Hx _ IHl]; intros hs H; [reflexivity|].
    rewrite flatten_array_cons in H. apply List.Forall_app in H as [H1 H2].
    change (applyHeader_platform (HArr (x :: l)) (trimmed hs))
      with (match applyHeader_platform x (trimmed hs) with
            | Ok hs' => applyHeader_platform (HArr l) hs'
            | Throw e => Throw e
            end).
    rewrite (Hx hs H1). apply (IHl _ H2).
Qed.

(** X18: when the platform refuses none of the strings of the input (none
    holds a NUL, a line feed or a carriage return once stripped), the call
    on the platform's [Headers] returns the header list that the bare list
    operations compute, each value stripped of the whitespace around it. *)
Theorem cors_platform_trims (req : Request) (options : option Config)
    (co : CORSOptions) :
  resolveOptions req options = Ok co ->
  accepted_values co req = true ->
  exists h, cors req options = Ok h
            /\ cors_platform req options = Ok (trimmed h).
Proof.
  intros Hr Hv. unfold cors, cors_platform. rewrite Hr.
  eexists. split; [reflexivity|].
  apply (applyHeader_platform_trimmed (HArr (buildHeaders co req)) Headers.new).
  apply (buildHeaders_writes (fun s => Platform.accepted s = true));
    try reflexivity.
  - intros s Hs. unfold accepted_values in Hv. rewrite forallb_forall in Hv. auto.
  - intros n. apply is_value_accepted, number_is_value.
Qed.

Lemma cors_platform_trims_witness :
  let req := {| method := "OPTIONS"; headers := [("Origin", "https://example.com")] |} in
  let o := {| p_allowedHeaders := Some (SStr " X-A "); p_allowedMethods := Some (SStr " ");
              p_credentials := None; p_exposedHeaders := None;
              p_maxAge := None; p_origin := Some (OStr "https://example.com ") |} in
  exists h, cors req (Some (Static o)) = Ok h
            /\ cors_platform req (Some (Static o)) = Ok (trimmed h).
Proof.
  intros req o.
  exact (cors_platform_trims req (Some (Static o)) (spread defaults o) eq_refl eq_refl).
Defined.
